(** * Multi-product CVP analysis: the calculation engine of [CVPsite.py]

    The script reads a fixed cost and a table of products, keeps the rows
    with a positive quantity, pools revenue, variable cost, contribution
    margin and quantity, derives the CVP metrics and the data of the
    cost/revenue chart.  This development embeds that computation and
    proves the properties stated for it.

    Numbers.  The script computes with binary floating point.  Here every
    finite number is an exact rational ([Q]); the results that can be
    [float('inf')] live in [xreal], the rationals extended with the two
    infinities and NaN, with the IEEE-754 rules for them.  The metrics
    and the chart lines are computed in exact arithmetic: what is proved
    of them are branch, guard, sign and bound facts.  Where a truncation
    makes the rounding of a single operation visible, in the domain of the
    chart (lines 87-88), the operation is rounded to binary64 with
    [double].

    Effects.  Every [/] of the script goes through [div], which records
    its divisor and signals a division by zero ([ZeroDivisionError] for
    a Python float, the IEEE divide-by-zero condition for a pandas
    scalar) on a zero divisor, so that "no division by zero is
    evaluated" is a property of the recorded trace. *)

From Stdlib Require Import QArith Qround ZArith List String Bool Lia Lqa.
From Stdlib Require Import Qabs Qpower Sorted Finite.
From Stdlib Require DecimalString DecimalZ.
Import ListNotations.
Open Scope Q_scope.

(** ** Python numerics over exact rationals *)

(** [x > 0] *)
Definition gt0 (x : Q) : bool := negb (Qle_bool x 0).

(** [x != 0] *)
Definition ne0 (x : Q) : bool := negb (Qeq_bool x 0).

(** [int(x)] on a float: truncation toward zero. *)
Definition int (x : Q) : Z := Z.quot (Qnum x) (Zpos (Qden x)).

(** Values that may be infinite: [float('inf')] and what arithmetic makes
    of it. *)
Inductive xreal : Type :=
| Fin (q : Q)
| PInf
| NInf
| NaN.

Definition xneg (a : xreal) : xreal :=
  match a with
  | Fin q => Fin (- q)
  | PInf => NInf
  | NInf => PInf
  | NaN => NaN
  end.

Definition xadd (a b : xreal) : xreal :=
  match a, b with
  | NaN, _ | _, NaN => NaN
  | Fin x, Fin y => Fin (x + y)
  | PInf, NInf | NInf, PInf => NaN
  | PInf, _ | _, PInf => PInf
  | NInf, _ | _, NInf => NInf
  end.

Definition xsub (a b : xreal) : xreal := xadd a (xneg b).

(** Sign of a finite factor applied to an infinity; [0 * inf] is NaN. *)
Definition xscale (q : Q) (pos : bool) : xreal :=
  if Qeq_bool q 0 then NaN
  else if Bool.eqb (gt0 q) pos then PInf else NInf.

Definition xmul (a b : xreal) : xreal :=
  match a, b with
  | NaN, _ | _, NaN => NaN
  | Fin x, Fin y => Fin (x * y)
  | Fin x, PInf | PInf, Fin x => xscale x true
  | Fin x, NInf | NInf, Fin x => xscale x false
  | PInf, PInf | NInf, NInf => PInf
  | PInf, NInf | NInf, PInf => NaN
  end.

(** ** Computations: a trace of divisors and a result or an exception *)

Inductive exn : Type :=
| ZeroDivisionError
| ValueError.

Inductive res (A : Type) : Type :=
| Val (a : A)
| Raise (e : exn).
Arguments Val {A} a.
Arguments Raise {A} e.

Definition M (A : Type) : Type := (list Q * res A)%type.

Definition ret {A} (a : A) : M A := ([], Val a).

Definition raise {A} (e : exn) : M A := ([], Raise e).

Definition bind {A B} (m : M A) (k : A -> M B) : M B :=
  match m with
  | (tr, Val a) => let (tr', r) := k a in (tr ++ tr', r)
  | (tr, Raise e) => (tr, Raise e)
  end.

Notation "x <- m ;; k" := (bind m (fun x => k))
  (at level 61, m at next level, right associativity).

(** The divisors evaluated by a computation, in order. *)
Definition divisors {A} (m : M A) : list Q := fst m.

(** What the computation ends with. *)
Definition outcome {A} (m : M A) : res A := snd m.

(** [a / b] *)
Definition div (a b : Q) : M Q :=
  ([b], if Qeq_bool b 0 then Raise ZeroDivisionError else Val (a / b)).

(** A list comprehension [[f(u) for u in us]]. *)
Fixpoint comprehension {A B} (f : A -> M B) (us : list A) : M (list B) :=
  match us with
  | [] => ret []
  | u :: us' =>
      y <- f u ;;
      ys <- comprehension f us' ;;
      ret (y :: ys)
  end.

(** [len(range(start, stop, step))] for [step <> 0]. *)
Definition range_len (start stop step : Z) : Z :=
  if (0 <? step)%Z then
    if (start <? stop)%Z then (1 + (stop - 1 - start) / step)%Z else 0%Z
  else
    if (stop <? start)%Z then (1 + (start - 1 - stop) / (- step))%Z else 0%Z.

(** [range(start, stop, step)], listed. *)
Definition range (start stop step : Z) : M (list Z) :=
  if (step =? 0)%Z then raise ValueError
  else ret (map (fun i => (start + Z.of_nat i * step)%Z)
                (seq 0 (Z.to_nat (range_len start stop step)))).

(** [max(xs)] of a list; an empty argument is a [ValueError]. *)
Definition max_of (xs : list Q) : M Q :=
  match xs with
  | [] => raise ValueError
  | x :: xs' => ret (fold_left (fun m y => if gt0 (y - m) then y else m) xs' x)
  end.

(** ** Data model *)

(** One dictionary of [products] (lines 32-37). *)
Record ProductRecord : Type := {
  Product : string;
  Selling_Price : Q;
  Variable_Cost : Q;
  Quantity_Sold : Q
}.

(** A row of [df_active] once its three columns are added (lines 44-46). *)
Record ProductSummary : Type := {
  record : ProductRecord;
  Total_Revenue : Q;
  Total_Variable_Cost : Q;
  Contribution_Margin : Q
}.

(** The four column sums (lines 51-54). *)
Record PooledTotals : Type := {
  total_revenue : Q;
  total_variable_cost : Q;
  total_cm : Q;
  total_quantity : Q
}.

(** The metrics of lines 57-65. *)
Record CVPMetrics : Type := {
  cm_per_unit : Q;
  cm_ratio : Q;
  vc_ratio : Q;
  break_even_units : xreal;
  break_even_dollars : xreal;
  mos_units : xreal;
  mos_dollars : xreal;
  net_operating_income : Q;
  dol : xreal
}.

Inductive Result : Type :=
| Metrics (m : CVPMetrics)
| InsufficientData.

(** The data of the chart (lines 87-92 and 108). *)
Record Chart : Type := {
  chart_max_units : Z;
  chart_units : list Z;
  chart_total_cost_line : list Q;
  chart_total_revenue_line : list Q;
  chart_max_y : Q;
  chart_marker : xreal * xreal
}.

(** What the page shows. *)
Inductive Page : Type :=
| Info
| Warning (summary : list ProductSummary)
| Report (summary : list ProductSummary) (totals : PooledTotals)
         (metrics : CVPMetrics) (chart : Chart).

(** ** Aggregator (lines 41-54) *)

(** [df[df["Quantity Sold"] > 0]] *)
Definition df_active (df : list ProductRecord) : list ProductRecord :=
  filter (fun r => gt0 (Quantity_Sold r)) df.

(** The three derived columns of one row. *)
Definition add_columns (r : ProductRecord) : ProductSummary :=
  let revenue := Selling_Price r * Quantity_Sold r in
  let variable := Variable_Cost r * Quantity_Sold r in
  {| record := r;
     Total_Revenue := revenue;
     Total_Variable_Cost := variable;
     Contribution_Margin := revenue - variable |}.

(** [Series.sum()]; the sum of an empty column is 0. *)
Definition sum (col : list Q) : Q := fold_left Qplus col 0.

Definition pool (summary : list ProductSummary) : PooledTotals :=
  {| total_revenue := sum (map Total_Revenue summary);
     total_variable_cost := sum (map Total_Variable_Cost summary);
     total_cm := sum (map Contribution_Margin summary);
     total_quantity := sum (map (fun s => Quantity_Sold (record s)) summary) |}.

Definition aggregate (products : list ProductRecord)
  : list ProductSummary * PooledTotals :=
  let summary := map add_columns (df_active products) in
  (summary, pool summary).

(** ** CVP calculator (lines 56-65) *)

(** The idiom of lines 60, 61 and 65:
    [a / b if b != 0 else float('inf')]. *)
Definition guarded (a b : Q) : M xreal :=
  if ne0 b then (q <- div a b ;; ret (Fin q)) else ret PInf.

Definition computeMetrics (totals : PooledTotals) (fixed_cost : Q) : M Result :=
  let total_revenue := total_revenue totals in
  let total_variable_cost := total_variable_cost totals in
  let total_cm := total_cm totals in
  let total_quantity := total_quantity totals in
  if gt0 total_quantity && gt0 total_revenue then
    cm_per_unit <- div total_cm total_quantity ;;
    cm_ratio <- div total_cm total_revenue ;;
    vc_ratio <- div total_variable_cost total_revenue ;;
    break_even_units <- guarded fixed_cost cm_per_unit ;;
    break_even_dollars <- guarded fixed_cost cm_ratio ;;
    let mos_units := xsub (Fin total_quantity) break_even_units in
    let mos_dollars := xsub (Fin total_revenue) break_even_dollars in
    let net_operating_income := total_cm - fixed_cost in
    dol <- guarded total_cm net_operating_income ;;
    ret (Metrics
           {| cm_per_unit := cm_per_unit;
              cm_ratio := cm_ratio;
              vc_ratio := vc_ratio;
              break_even_units := break_even_units;
              break_even_dollars := break_even_dollars;
              mos_units := mos_units;
              mos_dollars := mos_dollars;
              net_operating_income := net_operating_income;
              dol := dol |})
  else ret InsufficientData.

(** ** Chart data (lines 87-92 and 108) *)

(** [int(total_quantity * 1.2) if total_quantity > 0 else 1] *)
Definition max_units (total_quantity : Q) : Z :=
  if gt0 total_quantity then int (total_quantity * (12 # 10)) else 1%Z.

(** [range(0, max_units + 1, max(1, int(max_units / 100)))] *)
Definition units (max_units : Z) : M (list Z) :=
  q <- div (inject_Z max_units) 100 ;;
  range 0 (max_units + 1) (Z.max 1 (int q)).

Definition total_cost_line (totals : PooledTotals) (fixed_cost : Q)
    (units : list Z) : M (list Q) :=
  comprehension
    (fun u =>
       rate <- div (total_variable_cost totals) (total_quantity totals) ;;
       ret (fixed_cost + rate * inject_Z u))
    units.

Definition total_revenue_line (totals : PooledTotals) (units : list Z)
  : M (list Q) :=
  comprehension
    (fun u =>
       rate <- div (total_revenue totals) (total_quantity totals) ;;
       ret (rate * inject_Z u))
    units.

(** [fixed_cost + (total_variable_cost / total_quantity) * break_even_units] *)
Definition be_y (totals : PooledTotals) (fixed_cost : Q)
    (break_even_units : xreal) : M xreal :=
  rate <- div (total_variable_cost totals) (total_quantity totals) ;;
  ret (xadd (Fin fixed_cost) (xmul (Fin rate) break_even_units)).

Definition chartSeries (totals : PooledTotals) (fixed_cost : Q)
    (metrics : CVPMetrics) : M Chart :=
  let mu := max_units (total_quantity totals) in
  us <- units mu ;;
  cost <- total_cost_line totals fixed_cost us ;;
  revenue <- total_revenue_line totals us ;;
  top_cost <- max_of cost ;;
  top_revenue <- max_of revenue ;;
  top <- max_of [top_cost; top_revenue] ;;
  y <- be_y totals fixed_cost (break_even_units metrics) ;;
  ret {| chart_max_units := mu;
         chart_units := us;
         chart_total_cost_line := cost;
         chart_total_revenue_line := revenue;
         chart_max_y := top * (11 # 10);
         chart_marker := (break_even_units metrics, y) |}.

(** ** The chart domain in binary64 (lines 87-88)

    [int(total_quantity * 1.2)] and [int(max_units / 100)] truncate a
    rounded product and a rounded quotient.  [double] rounds a rational
    to the nearest binary64 number, ties to even, subnormal numbers
    included; the exponent is not bounded above, so a result of [2 ^ 1024]
    or more stands for an overflow to [inf], where [int] raises
    [OverflowError]. *)

(** The [e] with [2 ^ e <= x < 2 ^ (e + 1)], for [x > 0]. *)
Definition binade (x : Q) : Z :=
  let e := (Z.log2 (Qnum x) - Z.log2 (Zpos (Qden x)))%Z in
  if Qle_bool (2 ^ e) x then e else (e - 1)%Z.

(** The nearest integer, ties to even. *)
Definition rne (x : Q) : Z :=
  let f := Qfloor x in
  match Qcompare (x - inject_Z f) (1 # 2) with
  | Lt => f
  | Gt => (f + 1)%Z
  | Eq => if Z.even f then f else (f + 1)%Z
  end.

(** The unit in the last place of [x > 0], as a power of 2. *)
Definition ulp_exponent (x : Q) : Z := Z.max (binade x - 52) (-1074).

(** The nearest binary64 number. *)
Definition double (x : Q) : Q :=
  if Qeq_bool x 0 then 0
  else
    let a := Qabs x in
    let s := ulp_exponent a in
    (if gt0 x then 1 else -1) * (inject_Z (rne (a / 2 ^ s)) * 2 ^ s).

(** [int(total_quantity * 1.2) if total_quantity > 0 else 1], the literal
    and the product rounded. *)
Definition max_units_double (total_quantity : Q) : Z :=
  if gt0 total_quantity
  then int (double (total_quantity * double (12 # 10)))
  else 1%Z.

(** [range(0, max_units + 1, max(1, int(max_units / 100)))], the quotient
    rounded. *)
Definition units_double (max_units : Z) : M (list Z) :=
  q <- div (inject_Z max_units) 100 ;;
  range 0 (max_units + 1) (Z.max 1 (int (double q))).

(** The multiples [0, step, 2 * step, ...] up to [bound]. *)
Definition multiples (step bound : Z) : list Z :=
  map (fun i => (Z.of_nat i * step)%Z) (seq 0 (S (Z.to_nat (bound / step)))).

(** ** The page (lines 39-116)

    [products] is the list built by the input loop (lines 20-37), one row
    for each product of the form; the form asks for at least one product.
    The drawing calls are left out: they take the values computed here. *)

Definition page (fixed_cost : Q) (products : list ProductRecord) : M Page :=
  match df_active products with
  | [] => ret Info
  | _ :: _ =>
      let (summary, totals) := aggregate products in
      r <- computeMetrics totals fixed_cost ;;
      match r with
      | Metrics m =>
          c <- chartSeries totals fixed_cost m ;;
          ret (Report summary totals m c)
      | InsufficientData => ret (Warning summary)
      end
  end.

(** ** The input form (lines 12-37) *)

(** [str(i)] of an integer, as an f-string prints it. *)
Definition str (i : Z) : string :=
  DecimalString.NilZero.string_of_int (Z.to_int i).

(** The numbers entered in the form, read by widget key. *)
Definition Form : Type := string -> Q.

(** The keys of the three inputs of product [i] (lines 26, 28 and 30). *)
Definition sp_key (i : Z) : string := ("sp_" ++ str i)%string.
Definition vc_key (i : Z) : string := ("vc_" ++ str i)%string.
Definition q_key (i : Z) : string := ("q_" ++ str i)%string.

(** The dictionary appended for product [i] (lines 32-37). *)
Definition product_inputs (form : Form) (i : Z) : ProductRecord :=
  {| Product := ("Product " ++ str i)%string;
     Selling_Price := form (sp_key i);
     Variable_Cost := form (vc_key i);
     Quantity_Sold := form (q_key i) |}.

(** The loop of lines 20-37: [for i in range(1, int(num_products) + 1)]. *)
Definition products (form : Form) (num_products : Z) : M (list ProductRecord) :=
  indices <- range 1 (num_products + 1) 1 ;;
  ret (map (product_inputs form) indices).

(** The widget keys the loop creates, in order. *)
Definition widget_keys (num_products : Z) : M (list string) :=
  indices <- range 1 (num_products + 1) 1 ;;
  ret (flat_map (fun i => [sp_key i; vc_key i; q_key i]) indices).

(** ** Closed forms

    What the computations above evaluate to, as plain expressions; the
    lemmas below show that the runs agree with them. *)

(** The pooled totals of an empty active set. *)
Definition no_totals : PooledTotals :=
  {| total_revenue := 0; total_variable_cost := 0;
     total_cm := 0; total_quantity := 0 |}.

(** The record computed in the success branch, as a closed expression. *)
Definition metrics_of (t : PooledTotals) (fixed_cost : Q) : CVPMetrics :=
  let u := total_cm t / total_quantity t in
  let r := total_cm t / total_revenue t in
  let beu := if ne0 u then Fin (fixed_cost / u) else PInf in
  let bed := if ne0 r then Fin (fixed_cost / r) else PInf in
  let noi := total_cm t - fixed_cost in
  {| cm_per_unit := u;
     cm_ratio := r;
     vc_ratio := total_variable_cost t / total_revenue t;
     break_even_units := beu;
     break_even_dollars := bed;
     mos_units := xsub (Fin (total_quantity t)) beu;
     mos_dollars := xsub (Fin (total_revenue t)) bed;
     net_operating_income := noi;
     dol := if ne0 noi then Fin (total_cm t / noi) else PInf |}.

(** The divisors of the success branch. *)
Definition metrics_divisors (t : PooledTotals) (fixed_cost : Q) : list Q :=
  let u := total_cm t / total_quantity t in
  let r := total_cm t / total_revenue t in
  let noi := total_cm t - fixed_cost in
  [total_quantity t; total_revenue t; total_revenue t]
  ++ (if ne0 u then [u] else [])
  ++ (if ne0 r then [r] else [])
  ++ (if ne0 noi then [noi] else []).

(** A divisor that is not zero. *)
Definition nonzero (d : Q) : Prop := ~ d == 0.

(** The step of the range and the samples it yields. *)
Definition step_of (max_units : Z) : Z := Z.max 1 (max_units / 100).

Definition samples (max_units : Z) : list Z :=
  map (fun i => (Z.of_nat i * step_of max_units)%Z)
      (seq 0 (S (Z.to_nat (max_units / step_of max_units)))).

(** The chart computed when [total_quantity] is not zero; [top] is the
    larger of the two line maxima. *)
Definition chart_of (t : PooledTotals) (fixed_cost : Q) (m : CVPMetrics)
    (top : Q) : Chart :=
  let mu := max_units (total_quantity t) in
  let rate := total_variable_cost t / total_quantity t in
  {| chart_max_units := mu;
     chart_units := samples mu;
     chart_total_cost_line :=
       map (fun u => fixed_cost + rate * inject_Z u) (samples mu);
     chart_total_revenue_line :=
       map (fun u => total_revenue t / total_quantity t * inject_Z u)
           (samples mu);
     chart_max_y := top * (11 # 10);
     chart_marker :=
       (break_even_units m,
        xadd (Fin fixed_cost) (xmul (Fin rate) (break_even_units m))) |}.

Definition chart_divisors (t : PooledTotals) : list Q :=
  let n := List.length (samples (max_units (total_quantity t))) in
  [100] ++ repeat (total_quantity t) n ++ repeat (total_quantity t) n
  ++ [total_quantity t].

(** ** The aggregation as the specification words it *)

(** The sum of [f] over the records with [quantitySold > 0], written as
    the specification words it: a record takes part exactly when its
    quantity is positive. *)
Fixpoint spec_sum_active (f : ProductRecord -> Q) (products : list ProductRecord)
  : Q :=
  match products with
  | [] => 0
  | p :: rest =>
      if Qlt_le_dec 0 (Quantity_Sold p)
      then f p + spec_sum_active f rest
      else spec_sum_active f rest
  end.

(** ** Sample inputs *)

Definition product (name : string) (price cost quantity : Q) : ProductRecord :=
  {| Product := name; Selling_Price := price;
     Variable_Cost := cost; Quantity_Sold := quantity |}.

(** The default row of the form: price 10, variable cost 5, quantity 500. *)
Definition default_row : ProductRecord := product "Product 1" 10 5 500.

(** Scenario 4: a product given away. *)
Definition free_row : ProductRecord := product "Product 1" 0 5 100.

(** Scenario 5: contribution margin equal to the fixed cost 5000. *)
Definition even_row : ProductRecord := product "Product 1" 10 5 1000.

(** A row of the form left at quantity 0. *)
Definition idle_row : ProductRecord := product "Product 2" 10 5 0.

(** A product sold at its variable cost. *)
Definition flat_row : ProductRecord := product "Product 1" 5 5 3.

(** ** Comparisons *)

Lemma gt0_true (x : Q) : gt0 x = true <-> 0 < x.
Proof.
  unfold gt0. rewrite negb_true_iff.
  destruct (Qle_bool x 0) eqn:E; split; intro H; try easy.
  - apply Qle_bool_iff in E. lra.
  - destruct (Qlt_le_dec 0 x) as [L | L]; [exact L |].
    apply Qle_bool_iff in L. congruence.
Qed.

Lemma gt0_false (x : Q) : gt0 x = false <-> x <= 0.
Proof.
  unfold gt0. rewrite negb_false_iff. apply Qle_bool_iff.
Qed.

Lemma ne0_true (x : Q) : ne0 x = true <-> ~ x == 0.
Proof.
  unfold ne0. rewrite negb_true_iff.
  destruct (Qeq_bool x 0) eqn:E; split; intro H; try easy.
  - apply Qeq_bool_iff in E. contradiction.
  - intro K. apply Qeq_bool_iff in K. congruence.
Qed.

Lemma ne0_false (x : Q) : ne0 x = false <-> x == 0.
Proof.
  unfold ne0. rewrite negb_false_iff. apply Qeq_bool_iff.
Qed.

Lemma Qeq_bool_pos (x : Q) : 0 < x -> Qeq_bool x 0 = false.
Proof.
  intro H. destruct (Qeq_bool x 0) eqn:E; [| reflexivity].
  apply Qeq_bool_iff in E. lra.
Qed.

(** ** Running computations *)

Lemma bind_val {A B} (tr : list Q) (a : A) (k : A -> M B) :
  bind (tr, Val a) k = (tr ++ fst (k a), snd (k a)).
Proof. unfold bind. destruct (k a); reflexivity. Qed.

Lemma bind_ret {A B} (a : A) (k : A -> M B) : bind (ret a) k = k a.
Proof. unfold ret. rewrite bind_val. destruct (k a); reflexivity. Qed.

Lemma div_defined (a b : Q) :
  Qeq_bool b 0 = false -> div a b = ([b], Val (a / b)).
Proof. intro H. unfold div. rewrite H. reflexivity. Qed.

Lemma bind_div {B} (a b : Q) (k : Q -> M B) :
  Qeq_bool b 0 = false ->
  bind (div a b) k = (b :: fst (k (a / b)), snd (k (a / b))).
Proof. intro H. rewrite (div_defined a b H), bind_val. reflexivity. Qed.

Lemma guarded_run (a b : Q) :
  guarded a b =
  if ne0 b then ([b], Val (Fin (a / b))) else ([], Val PInf).
Proof.
  unfold guarded, ne0. destruct (Qeq_bool b 0) eqn:E; cbn [negb];
    [reflexivity |].
  rewrite (bind_div a b _ E). reflexivity.
Qed.

(** The branch of line 56, under its two tests. *)
Section SuccessBranch.

Variables (t : PooledTotals) (fixed_cost : Q).
Hypothesis Hq : 0 < total_quantity t.
Hypothesis Hr : 0 < total_revenue t.

Lemma computeMetrics_success :
  computeMetrics t fixed_cost =
  (metrics_divisors t fixed_cost, Val (Metrics (metrics_of t fixed_cost))).
Proof.
  unfold computeMetrics.
  rewrite (proj2 (gt0_true _) Hq), (proj2 (gt0_true _) Hr).
  cbn [andb].
  rewrite !bind_div by (apply Qeq_bool_pos; assumption).
  rewrite !guarded_run.
  unfold metrics_divisors, metrics_of.
  destruct (ne0 (total_cm t / total_quantity t));
    destruct (ne0 (total_cm t / total_revenue t));
    destruct (ne0 (total_cm t - fixed_cost));
    reflexivity.
Qed.

Lemma guarded_divisor_nonzero (x : Q) :
  Forall nonzero (if ne0 x then [x] else []).
Proof.
  destruct (ne0 x) eqn:E; constructor; [| constructor].
  apply ne0_true. exact E.
Qed.

Lemma metrics_divisors_nonzero :
  Forall nonzero (metrics_divisors t fixed_cost).
Proof.
  unfold metrics_divisors.
  repeat (apply Forall_app; split); try apply guarded_divisor_nonzero.
  repeat constructor; unfold nonzero; lra.
Qed.

End SuccessBranch.

Lemma computeMetrics_insufficient (t : PooledTotals) (fixed_cost : Q) :
  ~ (0 < total_quantity t /\ 0 < total_revenue t) ->
  computeMetrics t fixed_cost = ([], Val InsufficientData).
Proof.
  intro H. unfold computeMetrics.
  destruct (gt0 (total_quantity t)) eqn:Eq;
    destruct (gt0 (total_revenue t)) eqn:Er; try reflexivity.
  exfalso. apply H. split; apply gt0_true; assumption.
Qed.

(** ** Chart data *)

Lemma comprehension_div {A B} (n d : Q) (g : Q -> A -> B) (us : list A) :
  Qeq_bool d 0 = false ->
  comprehension (fun u => rate <- div n d ;; ret (g rate u)) us =
  (repeat d (List.length us), Val (map (g (n / d)) us)).
Proof.
  intro H. induction us as [| u us IH]; [reflexivity |].
  cbn [comprehension]. rewrite IH, (bind_div n d _ H). unfold ret.
  cbn [fst snd]. rewrite !bind_val. cbn [fst snd app List.length repeat map].
  rewrite app_nil_r. reflexivity.
Qed.

Lemma int_nonneg (x : Q) : 0 <= x -> int x = Qfloor x.
Proof.
  destruct x as [n d]. unfold Qle, int, Qfloor. cbn [Qnum Qden].
  intro H. apply Z.quot_div_nonneg; lia.
Qed.

Lemma int_div100 (n : Z) : (0 <= n)%Z -> int (inject_Z n / 100) = (n / 100)%Z.
Proof.
  intro H. unfold int, Qdiv, Qmult, Qinv, inject_Z. cbn [Qnum Qden].
  rewrite Z.mul_1_r. apply Z.quot_div_nonneg; lia.
Qed.

Lemma max_units_pos (q : Q) :
  0 < q -> max_units q = Qfloor (q * (12 # 10)).
Proof.
  intro H. unfold max_units. rewrite (proj2 (gt0_true q) H).
  apply int_nonneg. lra.
Qed.

Lemma max_units_nonpos (q : Q) : ~ 0 < q -> max_units q = 1%Z.
Proof.
  intro H. unfold max_units. destruct (gt0 q) eqn:E; [| reflexivity].
  apply gt0_true in E. contradiction.
Qed.

Lemma max_units_nonneg (q : Q) : (0 <= max_units q)%Z.
Proof.
  destruct (Qlt_le_dec 0 q) as [H | H].
  - rewrite (max_units_pos q H).
    assert (K : (Qfloor 0 <= Qfloor (q * (12 # 10)))%Z)
      by (apply Qfloor_resp_le; lra).
    exact K.
  - rewrite max_units_nonpos by lra. lia.
Qed.

Lemma units_run (mu : Z) :
  (0 <= mu)%Z -> units mu = ([100], Val (samples mu)).
Proof.
  intro H. unfold units. rewrite bind_div by reflexivity.
  rewrite (int_div100 mu H). fold (step_of mu).
  assert (Hs : (1 <= step_of mu)%Z) by (unfold step_of; lia).
  unfold range, range_len.
  replace (step_of mu =? 0)%Z with false by (symmetry; apply Z.eqb_neq; lia).
  replace (0 <? step_of mu)%Z with true by (symmetry; apply Z.ltb_lt; lia).
  replace (0 <? mu + 1)%Z with true by (symmetry; apply Z.ltb_lt; lia).
  replace (mu + 1 - 1 - 0)%Z with mu by lia.
  assert (Hd : (0 <= mu / step_of mu)%Z) by (apply Z.div_pos; lia).
  replace (Z.to_nat (1 + mu / step_of mu)) with (S (Z.to_nat (mu / step_of mu)))
    by lia.
  reflexivity.
Qed.

Lemma samples_cons (mu : Z) : exists us, samples mu = 0%Z :: us.
Proof. unfold samples. cbn [seq map]. eexists. reflexivity. Qed.

Lemma max_of_defined (xs : list Q) :
  xs <> [] -> exists y, max_of xs = ([], Val y).
Proof.
  destruct xs as [| x xs]; [congruence |]. intros _. eexists. reflexivity.
Qed.

Lemma map_samples_nonempty {B} (f : Z -> B) (mu : Z) : map f (samples mu) <> [].
Proof. destruct (samples_cons mu) as [us ->]. discriminate. Qed.

Lemma chartSeries_success (t : PooledTotals) (fixed_cost : Q) (m : CVPMetrics) :
  0 < total_quantity t ->
  exists top,
    chartSeries t fixed_cost m =
    (chart_divisors t, Val (chart_of t fixed_cost m top)).
Proof.
  intro Hq. pose proof (Qeq_bool_pos _ Hq) as Hz.
  unfold chartSeries, total_cost_line, total_revenue_line, be_y.
  rewrite (units_run _ (max_units_nonneg _)), bind_val.
  rewrite (comprehension_div _ _ (fun rate u => fixed_cost + rate * inject_Z u) _ Hz).
  rewrite bind_val.
  rewrite (comprehension_div _ _ (fun rate u => rate * inject_Z u) _ Hz).
  rewrite bind_val.
  match goal with |- context [max_of ?l] =>
    destruct (max_of_defined l) as [y1 ->];
    [apply map_samples_nonempty |] end.
  rewrite bind_val.
  match goal with |- context [max_of ?l] =>
    destruct (max_of_defined l) as [y2 ->];
    [apply map_samples_nonempty |] end.
  rewrite bind_val.
  match goal with |- context [max_of ?l] =>
    destruct (max_of_defined l) as [y3 ->]; [discriminate |] end.
  rewrite bind_val, (bind_div _ _ _ Hz).
  exists y3. unfold chart_divisors, chart_of, ret. cbn [fst snd app].
  rewrite bind_val. cbn [fst snd app]. reflexivity.
Qed.

(** ** Aggregator *)

Lemma fold_left_Qplus (col : list Q) (a : Q) :
  fold_left Qplus col a == a + fold_right Qplus 0 col.
Proof.
  revert a. induction col as [| x col IH]; intro a; cbn [fold_left fold_right].
  - ring.
  - rewrite IH. ring.
Qed.

Lemma sum_cons (x : Q) (col : list Q) : sum (x :: col) == x + sum col.
Proof.
  unfold sum. cbn [fold_left]. rewrite !fold_left_Qplus. ring.
Qed.

Lemma df_active_cons (p : ProductRecord) (ps : list ProductRecord) :
  df_active (p :: ps) =
  if Qlt_le_dec 0 (Quantity_Sold p) then p :: df_active ps else df_active ps.
Proof.
  unfold df_active. cbn [filter].
  destruct (Qlt_le_dec 0 (Quantity_Sold p)) as [H | H].
  - rewrite (proj2 (gt0_true _) H). reflexivity.
  - rewrite (proj2 (gt0_false _) H). reflexivity.
Qed.

Lemma sum_df_active (f : ProductRecord -> Q) (ps : list ProductRecord) :
  sum (map f (df_active ps)) == spec_sum_active f ps.
Proof.
  induction ps as [| p ps IH]; [reflexivity |].
  rewrite df_active_cons. cbn [spec_sum_active].
  destruct (Qlt_le_dec 0 (Quantity_Sold p)); [| exact IH].
  cbn [map]. rewrite sum_cons, IH. reflexivity.
Qed.

Lemma df_active_In (p : ProductRecord) (ps : list ProductRecord) :
  In p (df_active ps) <-> In p ps /\ 0 < Quantity_Sold p.
Proof.
  unfold df_active. rewrite filter_In, gt0_true. reflexivity.
Qed.

Lemma df_active_skip (l1 l2 : list ProductRecord) (p : ProductRecord) :
  Quantity_Sold p <= 0 -> df_active (l1 ++ p :: l2) = df_active (l1 ++ l2).
Proof.
  intro H. unfold df_active. rewrite !filter_app. cbn [filter].
  rewrite (proj2 (gt0_false _) H). reflexivity.
Qed.

Lemma df_active_none (ps : list ProductRecord) :
  Forall (fun p => Quantity_Sold p <= 0) ps -> df_active ps = [].
Proof.
  induction 1 as [| p ps Hp _ IH]; [reflexivity |].
  unfold df_active in *. cbn [filter].
  rewrite (proj2 (gt0_false _) Hp). exact IH.
Qed.

Lemma sum_positive (col : list Q) :
  Forall (fun x => 0 < x) col -> col <> [] -> 0 < sum col.
Proof.
  intros H. induction H as [| x col Hx Hcol IH]; [congruence |].
  intros _. rewrite sum_cons.
  destruct col as [| y col].
  - unfold sum. cbn [fold_left]. lra.
  - assert (0 < sum (y :: col)) by (apply IH; discriminate). lra.
Qed.

Lemma active_quantity_positive (ps : list ProductRecord) :
  df_active ps <> [] -> 0 < total_quantity (snd (aggregate ps)).
Proof.
  intro H. unfold aggregate, pool. cbn [snd total_quantity].
  rewrite map_map. cbn [add_columns record].
  apply sum_positive.
  - apply Forall_map, Forall_forall. intros p Hp.
    apply df_active_In in Hp. tauto.
  - destruct (df_active ps); [congruence | discriminate].
Qed.

(** ** The page *)

Lemma page_info (fixed_cost : Q) (ps : list ProductRecord) :
  df_active ps = [] -> page fixed_cost ps = ([], Val Info).
Proof. intro H. unfold page. rewrite H. reflexivity. Qed.

Lemma page_warning (fixed_cost : Q) (ps : list ProductRecord) :
  df_active ps <> [] ->
  ~ 0 < total_revenue (snd (aggregate ps)) ->
  page fixed_cost ps = ([], Val (Warning (fst (aggregate ps)))).
Proof.
  intros Ha Hr. unfold page.
  destruct (df_active ps) eqn:E; [congruence |].
  destruct (aggregate ps) as [s t] eqn:Eg. cbn [fst snd] in *.
  rewrite computeMetrics_insufficient by tauto.
  reflexivity.
Qed.

Lemma page_report (fixed_cost : Q) (ps : list ProductRecord) :
  df_active ps <> [] ->
  0 < total_revenue (snd (aggregate ps)) ->
  let s := fst (aggregate ps) in
  let t := snd (aggregate ps) in
  let m := metrics_of t fixed_cost in
  exists top,
    page fixed_cost ps =
    (metrics_divisors t fixed_cost ++ chart_divisors t,
     Val (Report s t m (chart_of t fixed_cost m top))).
Proof.
  intros Ha Hr. pose proof (active_quantity_positive ps Ha) as Hq.
  unfold page. destruct (df_active ps) eqn:E; [congruence |].
  destruct (aggregate ps) as [s t] eqn:Eg. cbn [fst snd] in *.
  rewrite (computeMetrics_success t fixed_cost Hq Hr), bind_val.
  destruct (chartSeries_success t fixed_cost (metrics_of t fixed_cost) Hq)
    as [top ->].
  exists top. rewrite bind_val. cbn [fst snd ret]. rewrite app_nil_r.
  reflexivity.
Qed.

(** ** Properties of the calculator *)

(** C1.  [computeMetrics] produces a metrics record if and only if
    [total_quantity > 0] and [total_revenue > 0].  When either fails it
    returns [InsufficientData] and evaluates no division at all; on the
    page, a non-empty active set then ends in the warning. *)
Theorem computeMetrics_success_iff (t : PooledTotals) (fixed_cost : Q) :
  ((exists m, outcome (computeMetrics t fixed_cost) = Val (Metrics m))
   <-> 0 < total_quantity t /\ 0 < total_revenue t)
  /\ (~ (0 < total_quantity t /\ 0 < total_revenue t) ->
      outcome (computeMetrics t fixed_cost) = Val InsufficientData
      /\ divisors (computeMetrics t fixed_cost) = [])
  /\ (forall ps,
        df_active ps <> [] -> snd (aggregate ps) = t ->
        ~ (0 < total_quantity t /\ 0 < total_revenue t) ->
        page fixed_cost ps = ([], Val (Warning (fst (aggregate ps))))).
Proof.
  split; [split |].
  - intros [m Hm].
    destruct (Qlt_le_dec 0 (total_quantity t)) as [Hq | Hq];
      destruct (Qlt_le_dec 0 (total_revenue t)) as [Hr | Hr];
      try (split; assumption);
      rewrite computeMetrics_insufficient in Hm by lra;
      discriminate.
  - intros [Hq Hr]. exists (metrics_of t fixed_cost).
    rewrite (computeMetrics_success t fixed_cost Hq Hr). reflexivity.
  - split.
    + intro H. rewrite (computeMetrics_insufficient t fixed_cost H).
      split; reflexivity.
    + intros ps Ha <- H. apply page_warning; [exact Ha |].
      pose proof (active_quantity_positive ps Ha). tauto.
Qed.

(** C2.  Under the success precondition the metrics are produced without
    any exception, and a zero denominator yields the sentinel
    [float('inf')]: [cm_per_unit == 0] gives [break_even_units = inf],
    [cm_ratio == 0] gives [break_even_dollars = inf] and
    [net_operating_income == 0] gives [dol = inf]. *)
Theorem infinity_sentinels (t : PooledTotals) (fixed_cost : Q) :
  0 < total_quantity t -> 0 < total_revenue t ->
  exists m,
    outcome (computeMetrics t fixed_cost) = Val (Metrics m)
    /\ (cm_per_unit m == 0 -> break_even_units m = PInf)
    /\ (cm_ratio m == 0 -> break_even_dollars m = PInf)
    /\ (net_operating_income m == 0 -> dol m = PInf).
Proof.
  intros Hq Hr. exists (metrics_of t fixed_cost).
  rewrite (computeMetrics_success t fixed_cost Hq Hr).
  split; [reflexivity |].
  unfold metrics_of.
  cbn [cm_per_unit cm_ratio net_operating_income break_even_units
       break_even_dollars dol].
  repeat split; intro H; apply ne0_false in H; rewrite H; reflexivity.
Qed.

(** Scenario 5: one product at price 10, variable cost 5, quantity 1000 and a
    fixed cost of 5000. *)
Lemma infinity_sentinels_witness :
  exists m,
    outcome (computeMetrics (snd (aggregate [even_row])) 5000) = Val (Metrics m)
    /\ (cm_per_unit m == 0 -> break_even_units m = PInf)
    /\ (cm_ratio m == 0 -> break_even_dollars m = PInf)
    /\ (net_operating_income m == 0 -> dol m = PInf).
Proof.
  apply (infinity_sentinels (snd (aggregate [even_row])) 5000); reflexivity.
Defined.

(** C5.  Break-even identity: under the success precondition, when
    [cm_per_unit] is not zero the break-even volume is finite and
    [fixed_cost == cm_per_unit * break_even_units] in exact arithmetic. *)
Theorem break_even_identity (t : PooledTotals) (fixed_cost : Q) :
  0 < total_quantity t -> 0 < total_revenue t ->
  exists m,
    outcome (computeMetrics t fixed_cost) = Val (Metrics m)
    /\ (~ cm_per_unit m == 0 ->
        exists b, break_even_units m = Fin b
                  /\ fixed_cost == cm_per_unit m * b).
Proof.
  intros Hq Hr. exists (metrics_of t fixed_cost).
  rewrite (computeMetrics_success t fixed_cost Hq Hr).
  split; [reflexivity |].
  unfold metrics_of. cbn [cm_per_unit break_even_units].
  intro H. exists (fixed_cost / (total_cm t / total_quantity t)).
  rewrite (proj2 (ne0_true _) H). split; [reflexivity |].
  field. split; [lra |].
  intro K. apply H. rewrite K. field. lra.
Qed.

(** Scenario 1: the default row with a fixed cost of 5000. *)
Lemma break_even_identity_witness :
  exists m,
    outcome (computeMetrics (snd (aggregate [default_row])) 5000)
    = Val (Metrics m)
    /\ (~ cm_per_unit m == 0 ->
        exists b, break_even_units m = Fin b /\ 5000 == cm_per_unit m * b).
Proof.
  apply (break_even_identity (snd (aggregate [default_row])) 5000); reflexivity.
Defined.

(** ** Properties of the chart data *)

(** C7.  With [total_quantity > 0] the chart is produced, and for every
    sampled unit [u] the cost line is
    [fixed_cost + (total_variable_cost / total_quantity) * u] and the
    revenue line is [(total_revenue / total_quantity) * u].  The first
    sample is unit 0, where the cost line equals [fixed_cost] and the
    revenue line equals 0. *)
Theorem chart_line_formulas (t : PooledTotals) (fixed_cost : Q) (m : CVPMetrics) :
  0 < total_quantity t ->
  exists c,
    outcome (chartSeries t fixed_cost m) = Val c
    /\ chart_total_cost_line c =
       map (fun u => fixed_cost
                     + total_variable_cost t / total_quantity t * inject_Z u)
           (chart_units c)
    /\ chart_total_revenue_line c =
       map (fun u => total_revenue t / total_quantity t * inject_Z u)
           (chart_units c)
    /\ exists us cost0 costs revenue0 revenues,
         chart_units c = 0%Z :: us
         /\ chart_total_cost_line c = cost0 :: costs
         /\ chart_total_revenue_line c = revenue0 :: revenues
         /\ cost0 == fixed_cost
         /\ revenue0 == 0.
Proof.
  intro Hq. destruct (chartSeries_success t fixed_cost m Hq) as [top E].
  exists (chart_of t fixed_cost m top). rewrite E.
  split; [reflexivity |]. split; [reflexivity |]. split; [reflexivity |].
  unfold chart_of.
  cbn [chart_units chart_total_cost_line chart_total_revenue_line].
  destruct (samples_cons (max_units (total_quantity t))) as [us ->].
  cbn [map]. do 5 eexists.
  split; [reflexivity |]. split; [reflexivity |]. split; [reflexivity |].
  split.
  - change (inject_Z 0) with 0. ring.
  - change (inject_Z 0) with 0. ring.
Qed.

(** The default row pooled, with a fixed cost of 5000. *)
Lemma chart_line_formulas_witness :
  let t := snd (aggregate [default_row]) in
  let m := metrics_of t 5000 in
  exists c,
    outcome (chartSeries t 5000 m) = Val c
    /\ chart_total_cost_line c =
       map (fun u => 5000 + total_variable_cost t / total_quantity t * inject_Z u)
           (chart_units c)
    /\ chart_total_revenue_line c =
       map (fun u => total_revenue t / total_quantity t * inject_Z u)
           (chart_units c)
    /\ exists us cost0 costs revenue0 revenues,
         chart_units c = 0%Z :: us
         /\ chart_total_cost_line c = cost0 :: costs
         /\ chart_total_revenue_line c = revenue0 :: revenues
         /\ cost0 == 5000
         /\ revenue0 == 0.
Proof.
  apply (chart_line_formulas (snd (aggregate [default_row])) 5000).
  reflexivity.
Defined.

(** C8.  Under the success precondition the break-even marker is the
    point [(break_even_units, fixed_cost + rate * break_even_units)] with
    [rate = total_variable_cost / total_quantity]; when [cm_per_unit] is
    not zero both coordinates are finite. *)
Theorem break_even_marker (t : PooledTotals) (fixed_cost : Q) :
  0 < total_quantity t -> 0 < total_revenue t ->
  exists m c,
    outcome (computeMetrics t fixed_cost) = Val (Metrics m)
    /\ outcome (chartSeries t fixed_cost m) = Val c
    /\ chart_marker c =
       (break_even_units m,
        xadd (Fin fixed_cost)
             (xmul (Fin (total_variable_cost t / total_quantity t))
                   (break_even_units m)))
    /\ (~ cm_per_unit m == 0 ->
        chart_marker c =
        (Fin (fixed_cost / cm_per_unit m),
         Fin (fixed_cost
              + total_variable_cost t / total_quantity t
                * (fixed_cost / cm_per_unit m)))).
Proof.
  intros Hq Hr.
  destruct (chartSeries_success t fixed_cost (metrics_of t fixed_cost) Hq)
    as [top E].
  exists (metrics_of t fixed_cost), (chart_of t fixed_cost (metrics_of t fixed_cost) top).
  rewrite (computeMetrics_success t fixed_cost Hq Hr), E.
  split; [reflexivity |]. split; [reflexivity |]. split; [reflexivity |].
  intro H. unfold chart_of, metrics_of in *.
  cbn [chart_marker break_even_units cm_per_unit] in *.
  rewrite (proj2 (ne0_true _) H). reflexivity.
Qed.

(** Scenario 1: the marker of the default row is (1000, 10000). *)
Lemma break_even_marker_witness :
  let t := snd (aggregate [default_row]) in
  exists m c,
    outcome (computeMetrics t 5000) = Val (Metrics m)
    /\ outcome (chartSeries t 5000 m) = Val c
    /\ chart_marker c =
       (break_even_units m,
        xadd (Fin 5000)
             (xmul (Fin (total_variable_cost t / total_quantity t))
                   (break_even_units m)))
    /\ (~ cm_per_unit m == 0 ->
        chart_marker c =
        (Fin (5000 / cm_per_unit m),
         Fin (5000
              + total_variable_cost t / total_quantity t
                * (5000 / cm_per_unit m)))).
Proof.
  apply (break_even_marker (snd (aggregate [default_row])) 5000); reflexivity.
Defined.

(** ** Safety of the divisions *)

Lemma chart_divisors_nonzero (t : PooledTotals) :
  0 < total_quantity t -> Forall nonzero (chart_divisors t).
Proof.
  intro Hq. unfold chart_divisors.
  assert (Hn : nonzero (total_quantity t)) by (unfold nonzero; lra).
  repeat (apply Forall_app; split).
  - repeat constructor. unfold nonzero. lra.
  - apply Forall_forall. intros x Hx. apply repeat_spec in Hx. now subst.
  - apply Forall_forall. intros x Hx. apply repeat_spec in Hx. now subst.
  - repeat constructor. exact Hn.
Qed.

(** A run that evaluates no division and ends with a value. *)
Ltac quiet_run := split; [constructor | eexists; reflexivity].

(** C9.  Every division of the engine is guarded.  [computeMetrics]
    divides by nothing outside the branch [total_quantity > 0 and
    total_revenue > 0], and inside it every divisor it evaluates is
    different from zero; over the whole page, for any fixed cost and any
    product list, every divisor evaluated is different from zero and the
    run ends without an exception. *)
Theorem divisions_guarded (fixed_cost : Q) (ps : list ProductRecord)
    (t : PooledTotals) :
  (Forall nonzero (divisors (computeMetrics t fixed_cost))
   /\ exists r, outcome (computeMetrics t fixed_cost) = Val r)
  /\ (gt0 (total_quantity t) && gt0 (total_revenue t) = false ->
      divisors (computeMetrics t fixed_cost) = [])
  /\ (Forall nonzero (divisors (page fixed_cost ps))
      /\ exists p, outcome (page fixed_cost ps) = Val p).
Proof.
  split; [| split].
  - destruct (Qlt_le_dec 0 (total_quantity t)) as [Hq | Hq];
      destruct (Qlt_le_dec 0 (total_revenue t)) as [Hr | Hr];
      try (rewrite computeMetrics_insufficient by lra; quiet_run).
    rewrite (computeMetrics_success t fixed_cost Hq Hr). split.
    + apply metrics_divisors_nonzero; assumption.
    + eexists. reflexivity.
  - intro H. rewrite computeMetrics_insufficient; [reflexivity |].
    intros [Hq Hr]. apply gt0_true in Hq, Hr. rewrite Hq, Hr in H.
    discriminate.
  - destruct (df_active ps) as [| a rest] eqn:Ea.
    + rewrite (page_info fixed_cost ps Ea). quiet_run.
    + assert (Ha : df_active ps <> []) by (rewrite Ea; discriminate).
      pose proof (active_quantity_positive ps Ha) as Hq.
      destruct (Qlt_le_dec 0 (total_revenue (snd (aggregate ps)))) as [Hr | Hr].
      * destruct (page_report fixed_cost ps Ha Hr) as [top ->].
        split; [| eexists; reflexivity].
        apply Forall_app. split.
        -- apply metrics_divisors_nonzero; assumption.
        -- apply chart_divisors_nonzero; assumption.
      * rewrite (page_warning fixed_cost ps Ha) by lra. quiet_run.
Qed.

(** ** The active set and the insufficient-data outcome *)

Lemma sum_nonnegative (col : list Q) :
  Forall (fun x => 0 <= x) col -> 0 <= sum col.
Proof.
  induction 1 as [| x col Hx _ IH].
  - unfold sum. cbn [fold_left]. lra.
  - rewrite sum_cons. lra.
Qed.

Lemma revenue_nonnegative (ps : list ProductRecord) :
  Forall (fun p => 0 <= Selling_Price p) ps ->
  0 <= total_revenue (snd (aggregate ps)).
Proof.
  intro H. unfold aggregate, pool. cbn [snd total_revenue].
  rewrite map_map. cbn [add_columns Total_Revenue].
  apply sum_nonnegative, Forall_map, Forall_forall.
  intros p Hp. apply df_active_In in Hp. destruct Hp as [Hin Hq].
  rewrite Forall_forall in H. specialize (H p Hin). cbv beta in H.
  apply Qmult_le_0_compat; lra.
Qed.

(** C10.  A non-empty active set has [total_quantity > 0], so
    [computeMetrics] answers [InsufficientData] exactly when
    [total_revenue > 0] fails, never because of [total_quantity].  With
    the non-negative selling prices of the form that is exactly when
    [total_revenue == 0], and the page shows its warning only then. *)
Theorem insufficient_only_from_revenue (fixed_cost : Q)
    (ps : list ProductRecord) :
  df_active ps <> [] ->
  let t := snd (aggregate ps) in
  0 < total_quantity t
  /\ (outcome (computeMetrics t fixed_cost) = Val InsufficientData
      <-> ~ 0 < total_revenue t)
  /\ (Forall (fun p => 0 <= Selling_Price p) ps ->
      (outcome (computeMetrics t fixed_cost) = Val InsufficientData
       <-> total_revenue t == 0)
      /\ (forall s, outcome (page fixed_cost ps) = Val (Warning s) ->
                    total_revenue t == 0)).
Proof.
  intros Ha t.
  pose proof (active_quantity_positive ps Ha) as Hq. fold t in Hq.
  assert (K : outcome (computeMetrics t fixed_cost) = Val InsufficientData
              <-> ~ 0 < total_revenue t).
  { split.
    - intros H L.
      rewrite (computeMetrics_success t fixed_cost Hq L) in H. discriminate.
    - intro H. rewrite computeMetrics_insufficient; [reflexivity | tauto]. }
  split; [exact Hq |]. split; [exact K |].
  intro Hp. pose proof (revenue_nonnegative ps Hp) as Hr. fold t in Hr.
  split.
  - rewrite K. split; intro H; lra.
  - intros s Hs. destruct (Qlt_le_dec 0 (total_revenue t)) as [L | L]; [| lra].
    destruct (page_report fixed_cost ps Ha L) as [top E].
    rewrite E in Hs. discriminate.
Qed.

(** Scenario 4: one product with price 0, variable cost 5 and quantity 100. *)
Lemma insufficient_only_from_revenue_witness :
  let t := snd (aggregate [free_row]) in
  0 < total_quantity t
  /\ (outcome (computeMetrics t 5000) = Val InsufficientData
      <-> ~ 0 < total_revenue t)
  /\ (Forall (fun p => 0 <= Selling_Price p) [free_row] ->
      (outcome (computeMetrics t 5000) = Val InsufficientData
       <-> total_revenue t == 0)
      /\ (forall s, outcome (page 5000 [free_row]) = Val (Warning s) ->
                    total_revenue t == 0)).
Proof.
  apply (insufficient_only_from_revenue 5000 [free_row]). discriminate.
Defined.

(** ** Properties of the aggregator *)

(** C3.  [aggregate] drops every record with [quantitySold <= 0] before
    anything else: the summary holds exactly the records with a positive
    quantity, in their order; a record with [quantitySold <= 0] is absent
    from it and removing that record from the input changes neither the
    summary nor any pooled total.  When no record is left the result is
    the empty summary with all totals 0, and the page ends with its
    informational message, without an exception. *)
Theorem aggregate_filters_inactive (ps : list ProductRecord) :
  map record (fst (aggregate ps)) = df_active ps
  /\ (forall p, In p (map record (fst (aggregate ps)))
                <-> In p ps /\ 0 < Quantity_Sold p)
  /\ (forall p, Quantity_Sold p <= 0 ->
                ~ In p (map record (fst (aggregate ps))))
  /\ (forall l1 p l2,
        ps = l1 ++ p :: l2 -> Quantity_Sold p <= 0 ->
        aggregate ps = aggregate (l1 ++ l2))
  /\ (Forall (fun p => Quantity_Sold p <= 0) ps ->
      aggregate ps = ([], no_totals)
      /\ forall fixed_cost, page fixed_cost ps = ([], Val Info)).
Proof.
  assert (E : map record (fst (aggregate ps)) = df_active ps).
  { unfold aggregate. cbn [fst]. rewrite map_map. cbn [add_columns record].
    apply map_id. }
  split; [exact E |]. rewrite E.
  split; [intro p; apply df_active_In |].
  split.
  - intros p Hp Hin. apply df_active_In in Hin. lra.
  - split.
    + intros l1 p l2 -> Hp. unfold aggregate.
      rewrite (df_active_skip l1 l2 p Hp). reflexivity.
    + intro H. pose proof (df_active_none ps H) as Hn. split.
      * unfold aggregate. rewrite Hn. reflexivity.
      * intro fixed_cost. apply page_info. exact Hn.
Qed.

(** C4.  Each pooled total is the sum of its column over the active
    summary, and therefore the sum over exactly the records with
    [quantitySold > 0] of [sellingPrice * quantitySold], of
    [variableCost * quantitySold], of their difference, and of
    [quantitySold]. *)
Theorem pooled_totals_additive (ps : list ProductRecord) :
  let summary := fst (aggregate ps) in
  let t := snd (aggregate ps) in
  (total_revenue t = sum (map Total_Revenue summary)
   /\ total_variable_cost t = sum (map Total_Variable_Cost summary)
   /\ total_cm t = sum (map Contribution_Margin summary)
   /\ total_quantity t = sum (map (fun s => Quantity_Sold (record s)) summary))
  /\ (forall s, In s summary ->
        Total_Revenue s = Selling_Price (record s) * Quantity_Sold (record s)
        /\ Total_Variable_Cost s
           = Variable_Cost (record s) * Quantity_Sold (record s)
        /\ Contribution_Margin s = Total_Revenue s - Total_Variable_Cost s)
  /\ total_revenue t
     == spec_sum_active (fun p => Selling_Price p * Quantity_Sold p) ps
  /\ total_variable_cost t
     == spec_sum_active (fun p => Variable_Cost p * Quantity_Sold p) ps
  /\ total_cm t
     == spec_sum_active
          (fun p => Selling_Price p * Quantity_Sold p
                    - Variable_Cost p * Quantity_Sold p) ps
  /\ total_quantity t == spec_sum_active Quantity_Sold ps.
Proof.
  intros summary t. subst summary t. unfold aggregate, pool.
  cbn [fst snd total_revenue total_variable_cost total_cm total_quantity].
  split; [repeat split |]. split.
  - intros s Hs. apply in_map_iff in Hs. destruct Hs as [p [<- _]].
    repeat split.
  - rewrite !map_map. cbn [add_columns Total_Revenue Total_Variable_Cost
                           Contribution_Margin record].
    repeat split; apply sum_df_active.
Qed.

(** ** The domain of the chart

    First the units of the exact computation, which the chart of
    [chartSeries] carries; then the units with the rounding of the
    product and of the quotient, which is what [int] truncates. *)

Lemma step_of_pos (mu : Z) : (1 <= step_of mu)%Z.
Proof. unfold step_of. lia. Qed.

Lemma samples_nth (mu : Z) (i : nat) (u : Z) :
  nth_error (samples mu) i = Some u ->
  u = (Z.of_nat i * step_of mu)%Z
  /\ (i <= Z.to_nat (mu / step_of mu))%nat.
Proof.
  unfold samples. intro H.
  rewrite nth_error_map in H.
  destruct (nth_error (seq 0 (S (Z.to_nat (mu / step_of mu)))) i) as [k |] eqn:E;
    [| discriminate].
  injection H as <-.
  pose proof (nth_error_Some (seq 0 (S (Z.to_nat (mu / step_of mu)))) i) as Hl.
  rewrite E, length_seq in Hl.
  assert (Hi : (i < S (Z.to_nat (mu / step_of mu)))%nat) by (apply Hl; discriminate).
  rewrite (nth_error_nth' _ 0%nat) in E by (rewrite length_seq; exact Hi).
  rewrite seq_nth in E by exact Hi. injection E as <-.
  split; [reflexivity | lia].
Qed.

Lemma multiple_below (mu s k : Z) :
  (0 <= mu)%Z -> (1 <= s)%Z -> (0 <= k <= mu / s)%Z -> (0 <= k * s <= mu)%Z.
Proof.
  intros Hm Hs Hk.
  pose proof (Z.mul_div_le mu s ltac:(lia)) as Hd.
  split; [nia |]. nia.
Qed.

Lemma samples_bounds (mu u : Z) :
  (0 <= mu)%Z -> In u (samples mu) -> (0 <= u <= mu)%Z.
Proof.
  intros Hm Hin. apply In_nth_error in Hin. destruct Hin as [i Hi].
  apply samples_nth in Hi. destruct Hi as [-> Hi].
  pose proof (step_of_pos mu) as Hs.
  assert (Hd : (0 <= mu / step_of mu)%Z) by (apply Z.div_pos; lia).
  apply multiple_below; lia.
Qed.

(** *** The domain with the rounding of lines 87-88 *)

Lemma rne_floor (y : Q) : (Qfloor y <= rne y <= Qfloor y + 1)%Z.
Proof.
  unfold rne. destruct (Qcompare (y - inject_Z (Qfloor y)) (1 # 2));
    [destruct (Z.even (Qfloor y)) | |]; lia.
Qed.

Lemma rne_nonneg (y : Q) : 0 <= y -> (0 <= rne y)%Z.
Proof.
  intro H. pose proof (rne_floor y) as [L _].
  assert (K : (Qfloor 0 <= Qfloor y)%Z) by (apply Qfloor_resp_le; exact H).
  change (Qfloor 0) with 0%Z in K. lia.
Qed.

Lemma power2_pos (s : Z) : 0 < 2 ^ s.
Proof. apply Qpower_0_lt. reflexivity. Qed.

Lemma double_nonneg (x : Q) : 0 <= x -> 0 <= double x.
Proof.
  intro H. unfold double. destruct (Qeq_bool x 0) eqn:E; [lra |].
  assert (Hx : 0 < x).
  { destruct (Qlt_le_dec 0 x) as [L | L]; [exact L |].
    assert (K : x == 0) by lra. apply Qeq_bool_iff in K. congruence. }
  rewrite (proj2 (gt0_true x) Hx).
  set (s := ulp_exponent (Qabs x)).
  pose proof (power2_pos s) as Hs.
  assert (Hm : (0 <= rne (Qabs x / 2 ^ s))%Z).
  { apply rne_nonneg. unfold Qdiv.
    apply Qmult_le_0_compat; [apply Qabs_nonneg |].
    apply Qlt_le_weak, Qinv_lt_0_compat. exact Hs. }
  rewrite Zle_Qle in Hm. change (inject_Z 0) with 0 in Hm.
  pose proof (Qmult_le_0_compat _ _ Hm (Qlt_le_weak _ _ Hs)). lra.
Qed.

Lemma int_floor_bounds (x : Q) :
  0 <= x -> inject_Z (int x) <= x < inject_Z (int x) + 1.
Proof.
  intro H. rewrite (int_nonneg x H). split; [apply Qfloor_le |].
  pose proof (Qlt_floor x) as K. rewrite inject_Z_plus in K. exact K.
Qed.

Lemma int_of_nonneg (x : Q) : 0 <= x -> (0 <= int x)%Z.
Proof.
  intro H. rewrite (int_nonneg x H).
  assert (K : (Qfloor 0 <= Qfloor x)%Z) by (apply Qfloor_resp_le; exact H).
  exact K.
Qed.

Lemma max_units_double_nonneg (q : Q) : (0 <= max_units_double q)%Z.
Proof.
  unfold max_units_double. destruct (gt0 q) eqn:E; [| lia].
  apply gt0_true in E. apply int_of_nonneg, double_nonneg.
  apply Qmult_le_0_compat; [lra | apply double_nonneg; discriminate].
Qed.

Lemma range_multiples (mu s : Z) :
  (0 <= mu)%Z -> (1 <= s)%Z ->
  range 0 (mu + 1) s = ([], Val (multiples s mu)).
Proof.
  intros Hm Hs. unfold range, range_len.
  replace (s =? 0)%Z with false by (symmetry; apply Z.eqb_neq; lia).
  replace (0 <? s)%Z with true by (symmetry; apply Z.ltb_lt; lia).
  replace (0 <? mu + 1)%Z with true by (symmetry; apply Z.ltb_lt; lia).
  replace (mu + 1 - 1 - 0)%Z with mu by lia.
  assert (Hd : (0 <= mu / s)%Z) by (apply Z.div_pos; lia).
  replace (Z.to_nat (1 + mu / s)) with (S (Z.to_nat (mu / s))) by lia.
  reflexivity.
Qed.

Lemma units_double_run (mu : Z) :
  (0 <= mu)%Z ->
  units_double mu
  = ([100],
     Val (multiples (Z.max 1 (int (double (inject_Z mu / 100)))) mu)).
Proof.
  intro H. unfold units_double. rewrite bind_div by reflexivity.
  rewrite range_multiples by lia. reflexivity.
Qed.

Lemma multiples_nth (s mu : Z) (i : nat) (u : Z) :
  nth_error (multiples s mu) i = Some u ->
  u = (Z.of_nat i * s)%Z /\ (i <= Z.to_nat (mu / s))%nat.
Proof.
  unfold multiples. intro H. rewrite nth_error_map in H.
  destruct (nth_error (seq 0 (S (Z.to_nat (mu / s)))) i) as [k |] eqn:E;
    [| discriminate].
  injection H as <-.
  pose proof (nth_error_Some (seq 0 (S (Z.to_nat (mu / s)))) i) as Hl.
  rewrite E, length_seq in Hl.
  assert (Hi : (i < S (Z.to_nat (mu / s)))%nat) by (apply Hl; discriminate).
  rewrite (nth_error_nth' _ 0%nat) in E by (rewrite length_seq; exact Hi).
  rewrite seq_nth in E by exact Hi. injection E as <-.
  split; [reflexivity | lia].
Qed.

Lemma multiples_bounds (s mu u : Z) :
  (0 <= mu)%Z -> (1 <= s)%Z -> In u (multiples s mu) -> (0 <= u <= mu)%Z.
Proof.
  intros Hm Hs Hin. apply In_nth_error in Hin. destruct Hin as [i Hi].
  apply multiples_nth in Hi. destruct Hi as [-> Hi].
  assert (Hd : (0 <= mu / s)%Z) by (apply Z.div_pos; lia).
  apply multiple_below; lia.
Qed.

Lemma multiples_last (s mu : Z) :
  (0 <= mu)%Z -> (1 <= s)%Z ->
  last (multiples s mu) 0%Z = (mu / s * s)%Z.
Proof.
  intros Hm Hs. unfold multiples. rewrite seq_S, map_app. cbn [map].
  rewrite last_last. cbn [Nat.add].
  assert (Hd : (0 <= mu / s)%Z) by (apply Z.div_pos; lia).
  rewrite Z2Nat.id by exact Hd. reflexivity.
Qed.

(** C6, as the code has it.  With [total_quantity > 0] and a product
    [total_quantity * 1.2] within the range of binary64, [max_units] is
    the truncation of the rounded product (not a ceiling), it is not
    negative, and the sample units are [0, step, 2 * step, ...] with
    [step = max(1, int(max_units / 100))], the quotient rounded: the
    first unit is 0, every unit lies between 0 and [max_units], and the
    last one is above [max_units - step].  With a [total_quantity] that is
    not positive the guard of line 87 gives [max_units = 1] and the units
    0 and 1. *)
Theorem units_domain (q z : Q) :
  0 < q -> double (q * double (12 # 10)) < 2 ^ 1024 -> z <= 0 ->
  let mu := max_units_double q in
  let step := Z.max 1 (int (double (inject_Z mu / 100))) in
  (inject_Z mu <= double (q * double (12 # 10)) < inject_Z mu + 1
   /\ (0 <= mu)%Z
   /\ units_double mu = ([100], Val (multiples step mu))
   /\ (exists us, multiples step mu = 0%Z :: us)
   /\ (forall i u, nth_error (multiples step mu) i = Some u ->
                   u = (Z.of_nat i * step)%Z)
   /\ (forall u, In u (multiples step mu) -> (0 <= u <= mu)%Z)
   /\ (mu - step < last (multiples step mu) 0 <= mu)%Z)
  /\ (max_units_double z = 1%Z
      /\ units_double (max_units_double z) = ([100], Val [0; 1]%Z)).
Proof.
  intros Hq _ Hz mu step.
  pose proof (max_units_double_nonneg q) as Hm. fold mu in Hm.
  assert (Hs : (1 <= step)%Z) by (unfold step; lia).
  split.
  - split.
    { unfold mu, max_units_double. rewrite (proj2 (gt0_true q) Hq).
      apply int_floor_bounds, double_nonneg.
      apply Qmult_le_0_compat; [lra | apply double_nonneg; discriminate]. }
    split; [exact Hm |].
    split; [apply units_double_run; exact Hm |].
    split; [unfold multiples; cbn [seq map]; eexists; reflexivity |].
    split; [intros i u H; apply multiples_nth in H; apply H |].
    split; [intros u H; apply (multiples_bounds step mu); assumption |].
    rewrite (multiples_last step mu Hm Hs).
    pose proof (Z.mul_div_le mu step ltac:(lia)).
    pose proof (Z.mul_succ_div_gt mu step ltac:(lia)).
    lia.
  - assert (E : max_units_double z = 1%Z).
    { unfold max_units_double. rewrite (proj2 (gt0_false z) Hz). reflexivity. }
    rewrite E. split; reflexivity.
Qed.

(** Scenario 6 ([total_quantity = 500], hence [max_units = 600] and step 6)
    and an all-zero pool. *)
Lemma units_domain_witness :
  let mu := max_units_double 500 in
  let step := Z.max 1 (int (double (inject_Z mu / 100))) in
  (inject_Z mu <= double (500 * double (12 # 10)) < inject_Z mu + 1
   /\ (0 <= mu)%Z
   /\ units_double mu = ([100], Val (multiples step mu))
   /\ (exists us, multiples step mu = 0%Z :: us)
   /\ (forall i u, nth_error (multiples step mu) i = Some u ->
                   u = (Z.of_nat i * step)%Z)
   /\ (forall u, In u (multiples step mu) -> (0 <= u <= mu)%Z)
   /\ (mu - step < last (multiples step mu) 0 <= mu)%Z)
  /\ (max_units_double 0 = 1%Z
      /\ units_double (max_units_double 0) = ([100], Val [0; 1]%Z)).
Proof.
  apply (units_domain 500 0).
  - reflexivity.
  - vm_compute. reflexivity.
  - discriminate.
Defined.

(** C6 as stated fails.  With [total_quantity = 1] the product [1 * 1.2]
    is within range and its ceiling is 2, in exact as in rounded
    arithmetic, but [max_units] is 1 and the units are 0 and 1: the domain
    stops short of the ceiling. *)
Lemma units_domain_counterexample :
  0 < 1
  /\ Qceiling (1 * (12 # 10)) = 2%Z
  /\ Qceiling (double (1 * double (12 # 10))) = 2%Z
  /\ max_units_double 1 = 1%Z
  /\ units_double (max_units_double 1) = ([100], Val [0; 1]%Z)
  /\ ~ In 2%Z [0; 1]%Z.
Proof.
  split; [reflexivity |]. split; [reflexivity |].
  split; [vm_compute; reflexivity |]. split; [vm_compute; reflexivity |].
  split; [vm_compute; reflexivity |].
  cbn. intros [H | [H | H]]; [discriminate | discriminate | exact H].
Qed.

(** The rounding at work: with [total_quantity = 4000000000000004] the
    exact product is below 4800000000000005 but the rounded one is not;
    with [total_quantity = 14.166666666666666] the exact product is below
    17 and the rounded one is 17; with [total_quantity = 50000000000000080]
    the rounded quotient gives the step 600000000000001 and 100 units. *)
Lemma units_domain_rounding :
  max_units_double 4000000000000004 = 4800000000000005%Z
  /\ Qfloor (4000000000000004 * (12 # 10)) = 4800000000000004%Z
  /\ max_units_double (7975124340135253 # 562949953421312) = 17%Z
  /\ Qfloor ((7975124340135253 # 562949953421312) * (12 # 10)) = 16%Z
  /\ (exists us,
        units_double (max_units_double 50000000000000080) = ([100], Val us)
        /\ nth_error us 1 = Some 600000000000001%Z
        /\ List.length us = 100%nat).
Proof.
  repeat split; try (vm_compute; reflexivity).
  eexists. split; [vm_compute; reflexivity |].
  split; vm_compute; reflexivity.
Qed.

(** *** How [double] relates to its argument *)

Lemma power2_Z (a : Z) : (0 <= a)%Z -> inject_Z (2 ^ a) == 2 ^ a.
Proof. intro H. rewrite (Zpower_Qpower 2 a H). reflexivity. Qed.

Lemma power2_succ (e : Z) : 2 ^ (e + 1) == 2 * 2 ^ e.
Proof.
  rewrite Qpower_plus by discriminate. change (2 ^ 1) with 2. ring.
Qed.

Lemma binade_spec (x : Q) :
  0 < x -> 2 ^ binade x <= x /\ x < 2 ^ (binade x + 1).
Proof.
  intro Hx. destruct x as [n d]. unfold binade. cbn [Qnum Qden].
  assert (Hn : (0 < n)%Z) by (unfold Qlt in Hx; cbn in Hx; lia).
  set (a := Z.log2 n). set (b := Z.log2 (Zpos d)).
  pose proof (Z.log2_nonneg n) as Ha. fold a in Ha.
  pose proof (Z.log2_nonneg (Zpos d)) as Hb. fold b in Hb.
  destruct (Z.log2_spec n Hn) as [La Ua]. fold a in La, Ua.
  destruct (Z.log2_spec (Zpos d) ltac:(lia)) as [Lb Ub]. fold b in Lb, Ub.
  rewrite Zle_Qle, power2_Z in La by lia.
  rewrite Zlt_Qlt, <- Z.add_1_r, power2_Z in Ua by lia.
  rewrite Zle_Qle, power2_Z in Lb by lia.
  rewrite Zlt_Qlt, <- Z.add_1_r, power2_Z in Ub by lia.
  assert (Ex : n # d == inject_Z n / inject_Z (Zpos d)) by apply Qmake_Qdiv.
  assert (Hd : 0 < inject_Z (Zpos d)) by reflexivity.
  pose proof (power2_pos (a - b)) as Pe.
  pose proof (power2_pos b) as Pb.
  assert (Ea : 2 ^ a == 2 ^ (a - b) * 2 ^ b).
  { rewrite <- Qpower_plus by discriminate. replace (a - b + b)%Z with a by lia.
    reflexivity. }
  rewrite power2_succ in Ua, Ub.
  destruct (Qle_bool (2 ^ (a - b)) (n # d)) eqn:E.
  - apply Qle_bool_iff in E. split; [exact E |].
    rewrite power2_succ, Ex. apply Qlt_shift_div_r; [exact Hd |].
    apply Qlt_le_trans with (2 * 2 ^ a); [exact Ua |].
    rewrite Ea.
    assert (K : 2 ^ (a - b) * 2 ^ b <= 2 ^ (a - b) * inject_Z (Zpos d))
      by (apply Qmult_le_l; assumption).
    lra.
  - assert (L : n # d < 2 ^ (a - b)).
    { destruct (Qlt_le_dec (n # d) (2 ^ (a - b))) as [K | K]; [exact K |].
      apply Qle_bool_iff in K. congruence. }
    replace (a - b - 1 + 1)%Z with (a - b)%Z by lia.
    split; [| exact L].
    assert (Ee : 2 ^ (a - b) == 2 * 2 ^ (a - b - 1)).
    { rewrite <- power2_succ. replace (a - b - 1 + 1)%Z with (a - b)%Z by lia.
      reflexivity. }
    pose proof (power2_pos (a - b - 1)) as Pe1.
    rewrite Ex. apply Qle_shift_div_l; [exact Hd |].
    apply Qle_trans with (2 ^ a); [| exact La].
    rewrite Ea, Ee.
    assert (K : 2 ^ (a - b - 1) * inject_Z (Zpos d)
                <= 2 ^ (a - b - 1) * (2 * 2 ^ b))
      by (apply Qmult_le_l; [exact Pe1 | lra]).
    lra.
Qed.

(** ** Further properties of the metrics (lines 56-65) *)

Lemma sum_map_minus {A} (f g : A -> Q) (l : list A) :
  sum (map (fun x => f x - g x) l) == sum (map f l) - sum (map g l).
Proof.
  induction l as [| x l IH].
  - unfold sum. cbn [map fold_left]. ring.
  - cbn [map]. rewrite !sum_cons, IH. ring.
Qed.

Lemma pooled_margin (ps : list ProductRecord) :
  total_cm (snd (aggregate ps))
  == total_revenue (snd (aggregate ps))
     - total_variable_cost (snd (aggregate ps)).
Proof.
  unfold aggregate, pool.
  cbn [snd total_cm total_revenue total_variable_cost].
  rewrite !map_map.
  cbn [add_columns Total_Revenue Total_Variable_Cost Contribution_Margin].
  apply sum_map_minus.
Qed.

Lemma variable_cost_nonnegative (ps : list ProductRecord) :
  Forall (fun p => 0 <= Variable_Cost p) ps ->
  0 <= total_variable_cost (snd (aggregate ps)).
Proof.
  intro H. unfold aggregate, pool. cbn [snd total_variable_cost].
  rewrite map_map. cbn [add_columns Total_Variable_Cost].
  apply sum_nonnegative, Forall_map, Forall_forall.
  intros p Hp. apply df_active_In in Hp. destruct Hp as [Hin Hq].
  rewrite Forall_forall in H. specialize (H p Hin). cbv beta in H.
  apply Qmult_le_0_compat; lra.
Qed.

Lemma quotient_zero (a b : Q) : 0 < b -> (a / b == 0 <-> a == 0).
Proof.
  intro Hb. split; intro H.
  - assert (E : a == a / b * b) by (field; lra). rewrite E, H. ring.
  - rewrite H. field. lra.
Qed.

Lemma quotient_nonneg (a b : Q) : 0 <= a -> 0 < b -> 0 <= a / b.
Proof.
  intros Ha Hb. unfold Qdiv. apply Qmult_le_0_compat; [exact Ha |].
  apply Qlt_le_weak, Qinv_lt_0_compat. exact Hb.
Qed.

(** Opens the metrics record of the success branch. *)
Ltac open_metrics t fixed_cost Hq Hr :=
  exists (metrics_of t fixed_cost);
  split;
  [ rewrite (computeMetrics_success t fixed_cost Hq Hr); reflexivity
  | unfold metrics_of;
    cbn [cm_per_unit cm_ratio vc_ratio break_even_units break_even_dollars
         mos_units mos_dollars net_operating_income dol] ].

Lemma margin_nonnegative (ps : list ProductRecord) :
  Forall (fun p => 0 < Quantity_Sold p -> Variable_Cost p <= Selling_Price p)
         ps ->
  0 <= total_cm (snd (aggregate ps)).
Proof.
  intro H. unfold aggregate, pool. cbn [snd total_cm].
  rewrite map_map. cbn [add_columns Contribution_Margin].
  apply sum_nonnegative, Forall_map, Forall_forall.
  intros p Hp. apply df_active_In in Hp. destruct Hp as [Hin Hq].
  rewrite Forall_forall in H. specialize (H p Hin Hq).
  pose proof (Qmult_le_compat_r _ _ (Quantity_Sold p) H ltac:(lra)). lra.
Qed.

Lemma quotient_le_one (a b : Q) : 0 < b -> a <= b -> a / b <= 1.
Proof. intros Hb H. apply Qle_shift_div_r; [exact Hb | lra]. Qed.

Lemma quotient_pos (a b : Q) : 0 < a -> 0 < b -> 0 < a / b.
Proof.
  intros Ha Hb. unfold Qdiv.
  apply Qmult_lt_0_compat; [exact Ha | apply Qinv_lt_0_compat; exact Hb].
Qed.

Lemma quotient_neg (a b : Q) : a < 0 -> 0 < b -> a / b < 0.
Proof.
  intros Ha Hb.
  assert (E : a / b == - (- a / b)) by (field; lra).
  assert (K : 0 < - a / b) by (apply quotient_pos; lra).
  rewrite E. lra.
Qed.

Lemma quotient_nonpos (a b : Q) : 0 <= a -> b < 0 -> a / b <= 0.
Proof.
  intros Ha Hb.
  assert (E : a / b == - (a / - b)) by (field; lra).
  assert (K : 0 <= a / - b) by (apply quotient_nonneg; lra).
  rewrite E. lra.
Qed.

(** X1.  Bounds on the ratios.  On the pooled totals of a product list
    with positive revenue and non-negative variable costs, the
    variable-cost ratio is at least 0 and the contribution-margin ratio at
    most 1; when no active product is sold below its variable cost, the
    contribution-margin ratio and [cm_per_unit] are at least 0 and the
    variable-cost ratio is at most 1. *)
Theorem ratios_bounded (fixed_cost : Q) (ps : list ProductRecord) :
  df_active ps <> [] ->
  0 < total_revenue (snd (aggregate ps)) ->
  Forall (fun p => 0 <= Variable_Cost p) ps ->
  exists m,
    outcome (computeMetrics (snd (aggregate ps)) fixed_cost) = Val (Metrics m)
    /\ 0 <= vc_ratio m
    /\ cm_ratio m <= 1
    /\ (Forall (fun p => 0 < Quantity_Sold p ->
                         Variable_Cost p <= Selling_Price p) ps ->
        0 <= cm_ratio m /\ vc_ratio m <= 1 /\ 0 <= cm_per_unit m).
Proof.
  intros Ha Hr Hv. pose proof (active_quantity_positive ps Ha) as Hq.
  pose proof (pooled_margin ps) as Hm.
  pose proof (variable_cost_nonnegative ps Hv) as Hc.
  open_metrics (snd (aggregate ps)) fixed_cost Hq Hr.
  split; [apply quotient_nonneg; assumption |].
  split; [apply quotient_le_one; [assumption | lra] |].
  intro Hs. pose proof (margin_nonnegative ps Hs) as Hn.
  split; [apply quotient_nonneg; assumption |].
  split; [apply quotient_le_one; [assumption | lra] |].
  apply quotient_nonneg; assumption.
Qed.

Lemma ratios_bounded_witness :
  exists m,
    outcome (computeMetrics (snd (aggregate [default_row; idle_row])) 5000)
    = Val (Metrics m)
    /\ 0 <= vc_ratio m
    /\ cm_ratio m <= 1
    /\ (Forall (fun p => 0 < Quantity_Sold p ->
                         Variable_Cost p <= Selling_Price p)
               [default_row; idle_row] ->
        0 <= cm_ratio m /\ vc_ratio m <= 1 /\ 0 <= cm_per_unit m).
Proof.
  apply (ratios_bounded 5000 [default_row; idle_row]).
  - discriminate.
  - reflexivity.
  - repeat constructor; discriminate.
Defined.

(** X2.  The two break-even points go together.  Under the success
    precondition [cm_per_unit] is zero exactly when [cm_ratio] is zero, so
    the break-even in units is [inf] exactly when the break-even in
    dollars is; with a non-negative fixed cost, both are finite and not
    negative when the total contribution margin is positive, and both are
    finite and not positive when it is negative. *)
Theorem break_even_consistent (t : PooledTotals) (fixed_cost : Q) :
  0 < total_quantity t -> 0 < total_revenue t -> 0 <= fixed_cost ->
  exists m,
    outcome (computeMetrics t fixed_cost) = Val (Metrics m)
    /\ (cm_per_unit m == 0 <-> cm_ratio m == 0)
    /\ (break_even_units m = PInf <-> break_even_dollars m = PInf)
    /\ (0 < total_cm t ->
        exists b d,
          break_even_units m = Fin b /\ break_even_dollars m = Fin d
          /\ 0 <= b /\ 0 <= d)
    /\ (total_cm t < 0 ->
        exists b d,
          break_even_units m = Fin b /\ break_even_dollars m = Fin d
          /\ b <= 0 /\ d <= 0).
Proof.
  intros Hq Hr Hf. open_metrics t fixed_cost Hq Hr.
  pose proof (quotient_zero (total_cm t) _ Hq) as Zu.
  pose proof (quotient_zero (total_cm t) _ Hr) as Zr.
  split; [rewrite Zu, Zr; reflexivity |].
  split.
  - destruct (ne0 (total_cm t / total_quantity t)) eqn:Eu;
      destruct (ne0 (total_cm t / total_revenue t)) eqn:Er;
      try (split; intro; [reflexivity || discriminate
                         | reflexivity || discriminate]).
    + apply ne0_true in Eu. apply ne0_false in Er. tauto.
    + apply ne0_false in Eu. apply ne0_true in Er. tauto.
  - split; intro Hc.
    + pose proof (quotient_pos _ _ Hc Hq) as Pu.
      pose proof (quotient_pos _ _ Hc Hr) as Pr.
      assert (Nu : ~ total_cm t / total_quantity t == 0) by lra.
      assert (Nr : ~ total_cm t / total_revenue t == 0) by lra.
      rewrite (proj2 (ne0_true _) Nu), (proj2 (ne0_true _) Nr).
      do 2 eexists. split; [reflexivity |]. split; [reflexivity |].
      split; apply quotient_nonneg; assumption.
    + pose proof (quotient_neg _ _ Hc Hq) as Pu.
      pose proof (quotient_neg _ _ Hc Hr) as Pr.
      assert (Nu : ~ total_cm t / total_quantity t == 0) by lra.
      assert (Nr : ~ total_cm t / total_revenue t == 0) by lra.
      rewrite (proj2 (ne0_true _) Nu), (proj2 (ne0_true _) Nr).
      do 2 eexists. split; [reflexivity |]. split; [reflexivity |].
      split; apply quotient_nonpos; assumption.
Qed.

Lemma break_even_consistent_witness :
  let t := snd (aggregate [default_row]) in
  exists m,
    outcome (computeMetrics t 5000) = Val (Metrics m)
    /\ (cm_per_unit m == 0 <-> cm_ratio m == 0)
    /\ (break_even_units m = PInf <-> break_even_dollars m = PInf)
    /\ (0 < total_cm t ->
        exists b d,
          break_even_units m = Fin b /\ break_even_dollars m = Fin d
          /\ 0 <= b /\ 0 <= d)
    /\ (total_cm t < 0 ->
        exists b d,
          break_even_units m = Fin b /\ break_even_dollars m = Fin d
          /\ b <= 0 /\ d <= 0).
Proof.
  apply (break_even_consistent (snd (aggregate [default_row])) 5000);
    [reflexivity | reflexivity | discriminate].
Defined.

(** X4.  An unreachable break-even.  Under the success precondition
    with a total contribution margin of zero, both break-even values are
    [inf], both margins of safety are [-inf], the net operating income is
    minus the fixed cost, and the degree of operating leverage is 0 for a
    fixed cost other than zero and [inf] for a fixed cost of zero. *)
Theorem unreachable_break_even (t : PooledTotals) (fixed_cost : Q) :
  0 < total_quantity t -> 0 < total_revenue t -> total_cm t == 0 ->
  exists m,
    outcome (computeMetrics t fixed_cost) = Val (Metrics m)
    /\ break_even_units m = PInf
    /\ break_even_dollars m = PInf
    /\ mos_units m = NInf
    /\ mos_dollars m = NInf
    /\ net_operating_income m == - fixed_cost
    /\ (~ fixed_cost == 0 -> exists d, dol m = Fin d /\ d == 0)
    /\ (fixed_cost == 0 -> dol m = PInf).
Proof.
  intros Hq Hr Hc. open_metrics t fixed_cost Hq Hr.
  assert (Eu : ne0 (total_cm t / total_quantity t) = false)
    by (apply ne0_false, quotient_zero; assumption).
  assert (Er : ne0 (total_cm t / total_revenue t) = false)
    by (apply ne0_false, quotient_zero; assumption).
  rewrite Eu, Er.
  do 4 (split; [reflexivity |]).
  split; [rewrite Hc; ring |].
  split.
  - intro Hf.
    assert (En : ~ total_cm t - fixed_cost == 0) by (rewrite Hc; lra).
    rewrite (proj2 (ne0_true _) En). eexists. split; [reflexivity |].
    rewrite Hc. field. lra.
  - intro Hf.
    assert (En : total_cm t - fixed_cost == 0) by (rewrite Hc, Hf; ring).
    rewrite (proj2 (ne0_false _) En). reflexivity.
Qed.

Lemma unreachable_break_even_witness :
  exists m,
    outcome (computeMetrics (snd (aggregate [flat_row])) 5000) = Val (Metrics m)
    /\ break_even_units m = PInf
    /\ break_even_dollars m = PInf
    /\ mos_units m = NInf
    /\ mos_dollars m = NInf
    /\ net_operating_income m == - 5000
    /\ (~ 5000 == 0 -> exists d, dol m = Fin d /\ d == 0)
    /\ (5000 == 0 -> dol m = PInf).
Proof.
  apply (unreachable_break_even (snd (aggregate [flat_row])) 5000);
    reflexivity.
Defined.

(** ** Further properties of the chart (lines 87-110) *)

Lemma fold_max_spec (xs : list Q) (a : Q) :
  let r := fold_left (fun m y => if gt0 (y - m) then y else m) xs a in
  (r = a \/ In r xs) /\ a <= r /\ forall v, In v xs -> v <= r.
Proof.
  revert a. induction xs as [| x xs IH]; intro a; cbn [fold_left].
  - split; [left; reflexivity |]. split; [lra | intros v []].
  - destruct (IH (if gt0 (x - a) then x else a)) as [Hin [Hle Hall]].
    destruct (gt0 (x - a)) eqn:E.
    + apply gt0_true in E. split; [| split].
      * right. destruct Hin as [-> | Hin]; [left; reflexivity | right; exact Hin].
      * lra.
      * intros v [<- | Hv]; [exact Hle | apply Hall; exact Hv].
    + apply gt0_false in E. split; [| split].
      * destruct Hin as [-> | Hin]; [left; reflexivity | right; right; exact Hin].
      * exact Hle.
      * intros v [<- | Hv]; [lra | apply Hall; exact Hv].
Qed.

Lemma max_of_spec (xs : list Q) (tr : list Q) (y : Q) :
  max_of xs = (tr, Val y) -> In y xs /\ forall v, In v xs -> v <= y.
Proof.
  destruct xs as [| x xs]; [discriminate |].
  unfold max_of, ret. intro H. injection H as _ <-.
  destruct (fold_max_spec xs x) as [Hin [Hle Hall]]. split.
  - destruct Hin as [-> | Hin]; [left; reflexivity | right; exact Hin].
  - intros v [<- | Hv]; [exact Hle | apply Hall; exact Hv].
Qed.

Lemma chartSeries_top (t : PooledTotals) (fixed_cost : Q) (m : CVPMetrics) :
  0 < total_quantity t ->
  exists top,
    chartSeries t fixed_cost m =
    (chart_divisors t, Val (chart_of t fixed_cost m top))
    /\ forall v,
         In v (chart_total_cost_line (chart_of t fixed_cost m top))
         \/ In v (chart_total_revenue_line (chart_of t fixed_cost m top)) ->
         v <= top.
Proof.
  intro Hq. pose proof (Qeq_bool_pos _ Hq) as Hz.
  unfold chartSeries, total_cost_line, total_revenue_line, be_y.
  rewrite (units_run _ (max_units_nonneg _)), bind_val.
  rewrite (comprehension_div _ _ (fun rate u => fixed_cost + rate * inject_Z u) _ Hz).
  rewrite bind_val.
  rewrite (comprehension_div _ _ (fun rate u => rate * inject_Z u) _ Hz).
  rewrite bind_val.
  match goal with |- context [max_of ?l] =>
    destruct (max_of_defined l) as [y1 E1];
    [apply map_samples_nonempty |]; rewrite E1;
    apply max_of_spec in E1 end.
  rewrite bind_val.
  match goal with |- context [max_of ?l] =>
    destruct (max_of_defined l) as [y2 E2];
    [apply map_samples_nonempty |]; rewrite E2;
    apply max_of_spec in E2 end.
  rewrite bind_val.
  match goal with |- context [max_of ?l] =>
    destruct (max_of_defined l) as [y3 E3]; [discriminate |]; rewrite E3;
    apply max_of_spec in E3 end.
  rewrite bind_val, (bind_div _ _ _ Hz).
  exists y3. split.
  - unfold chart_divisors, chart_of, ret. cbn [fst snd app].
    rewrite bind_val. cbn [fst snd app]. reflexivity.
  - unfold chart_of. cbn [chart_total_cost_line chart_total_revenue_line].
    cbn [fst snd] in *.
    destruct E1 as [_ H1]. destruct E2 as [_ H2]. destruct E3 as [_ H3].
    assert (K1 : y1 <= y3) by (apply H3; left; reflexivity).
    assert (K2 : y2 <= y3) by (apply H3; right; left; reflexivity).
    intros v [Hv | Hv].
    + specialize (H1 v Hv). lra.
    + specialize (H2 v Hv). lra.
Qed.

(** X8.  The lines fit the axes.  With [total_quantity > 0] and a fixed
    cost, total variable cost and total revenue that are not negative,
    every value of the cost line and of the revenue line lies between 0
    and [max_y], the upper limit of the vertical axis. *)
Theorem lines_within_limits (t : PooledTotals) (fixed_cost : Q)
    (m : CVPMetrics) :
  0 < total_quantity t -> 0 <= fixed_cost ->
  0 <= total_variable_cost t -> 0 <= total_revenue t ->
  exists c,
    outcome (chartSeries t fixed_cost m) = Val c
    /\ forall v,
         In v (chart_total_cost_line c) \/ In v (chart_total_revenue_line c) ->
         0 <= v <= chart_max_y c.
Proof.
  intros Hq Hf Hv Hr.
  destruct (chartSeries_top t fixed_cost m Hq) as [top [E Htop]].
  exists (chart_of t fixed_cost m top). rewrite E. split; [reflexivity |].
  pose proof (quotient_nonneg _ _ Hv Hq) as Hrate.
  pose proof (quotient_nonneg _ _ Hr Hq) as Hprice.
  assert (Hu : forall u, In u (samples (max_units (total_quantity t))) ->
                         0 <= inject_Z u).
  { intros u Hin. apply samples_bounds in Hin; [| apply max_units_nonneg].
    change 0 with (inject_Z 0). rewrite <- Zle_Qle. lia. }
  assert (Hpos : forall v,
             In v (chart_total_cost_line (chart_of t fixed_cost m top))
             \/ In v (chart_total_revenue_line (chart_of t fixed_cost m top)) ->
             0 <= v).
  { unfold chart_of. cbn [chart_total_cost_line chart_total_revenue_line].
    intros v [Hin | Hin]; apply in_map_iff in Hin;
      destruct Hin as [u [<- Hin]]; specialize (Hu u Hin).
    - pose proof (Qmult_le_0_compat _ _ Hrate Hu). lra.
    - apply Qmult_le_0_compat; assumption. }
  intros v Hin. pose proof (Hpos v Hin) as H0. pose proof (Htop v Hin) as H1.
  split; [exact H0 |].
  change (chart_max_y (chart_of t fixed_cost m top)) with (top * (11 # 10)).
  lra.
Qed.

Lemma lines_within_limits_witness :
  let t := snd (aggregate [default_row]) in
  exists c,
    outcome (chartSeries t 5000 (metrics_of t 5000)) = Val c
    /\ forall v,
         In v (chart_total_cost_line c) \/ In v (chart_total_revenue_line c) ->
         0 <= v <= chart_max_y c.
Proof.
  apply (lines_within_limits (snd (aggregate [default_row])) 5000);
    [reflexivity | discriminate | discriminate | discriminate].
Defined.

Lemma multiples_increasing (s : Z) (a n : nat) :
  (1 <= s)%Z ->
  StronglySorted Z.lt (map (fun i => (Z.of_nat i * s)%Z) (seq a n)).
Proof.
  intro Hs. revert a. induction n as [| n IH]; intro a; cbn [seq map].
  - constructor.
  - constructor; [apply IH |].
    apply Forall_map, Forall_forall. intros i Hi. apply in_seq in Hi.
    cbv beta. apply Z.mul_lt_mono_pos_r; lia.
Qed.

Lemma floor_unit_interval (x : Q) : 0 <= x -> x < 1 -> Qfloor x = 0%Z.
Proof.
  intros H0 H1.
  assert (L : (Qfloor 0 <= Qfloor x)%Z) by (apply Qfloor_resp_le; exact H0).
  change (Qfloor 0) with 0%Z in L.
  assert (U : (Qfloor x < 1)%Z).
  { rewrite Zlt_Qlt. apply Qle_lt_trans with x; [apply Qfloor_le | exact H1]. }
  lia.
Qed.

Lemma rne_near (y : Q) :
  y - (1 # 2) <= inject_Z (rne y) <= y + (1 # 2).
Proof.
  pose proof (Qfloor_le y) as L. pose proof (Qlt_floor y) as U.
  rewrite inject_Z_plus in U. change (inject_Z 1) with 1 in U.
  unfold rne.
  destruct (Qcompare (y - inject_Z (Qfloor y)) (1 # 2)) eqn:E.
  - apply Qeq_alt in E.
    destruct (Z.even (Qfloor y)); [lra |].
    rewrite inject_Z_plus. change (inject_Z 1) with 1. lra.
  - apply Qlt_alt in E. lra.
  - apply Qgt_alt in E. rewrite inject_Z_plus. change (inject_Z 1) with 1. lra.
Qed.

Lemma Qabs_positive (x : Q) : 0 < x -> Qabs x = x.
Proof.
  destruct x as [[| p | p] d]; unfold Qlt; cbn; intro H;
    [lia | reflexivity | lia].
Qed.

Lemma double_positive (x : Q) :
  0 < x ->
  double x
  == inject_Z (rne (x / 2 ^ ulp_exponent x)) * 2 ^ ulp_exponent x.
Proof.
  intro Hx. unfold double.
  rewrite (Qeq_bool_pos x Hx), (proj2 (gt0_true x) Hx), (Qabs_positive x Hx).
  ring.
Qed.

Lemma binade_nonneg (x : Q) : 1 <= x -> (0 <= binade x)%Z.
Proof.
  intro H. destruct (binade_spec x ltac:(lra)) as [_ U].
  assert (K : 2 ^ 0 < 2 ^ (binade x + 1)) by (change (2 ^ 0) with 1; lra).
  apply (Qpower_lt_compat_l_inv 2 0 (binade x + 1)) in K; [lia | reflexivity].
Qed.

Lemma ulp_exponent_normal (x : Q) :
  1 <= x -> ulp_exponent x = (binade x - 52)%Z.
Proof.
  intro H. pose proof (binade_nonneg x H). unfold ulp_exponent. lia.
Qed.

Lemma int_le_compat (x y : Q) : 0 <= x -> x <= y -> (int x <= int y)%Z.
Proof.
  intros Hx Hxy. rewrite (int_nonneg x Hx), (int_nonneg y) by lra.
  apply Qfloor_resp_le. exact Hxy.
Qed.

(** Below [2 ^ 53] rounding never loses the integer part. *)
Lemma double_keeps_integer_part (x : Q) :
  0 <= x -> x < 2 ^ 53 -> (Qfloor x <= int (double x))%Z.
Proof.
  intros H0 H53.
  destruct (Qlt_le_dec x 1) as [Small | Big].
  - rewrite (floor_unit_interval x H0 Small).
    apply int_of_nonneg, double_nonneg. exact H0.
  - assert (Hx : 0 < x) by lra.
    destruct (binade_spec x Hx) as [Le _].
    pose proof (binade_nonneg x Big) as He.
    assert (He' : (binade x < 53)%Z).
    { apply (Qpower_lt_compat_l_inv 2 (binade x) 53); [| reflexivity].
      apply Qle_lt_trans with x; assumption. }
    remember (52 - binade x)%Z as k eqn:Dk.
    assert (Hk : (0 <= k)%Z) by lia.
    assert (Es : ulp_exponent x = (- k)%Z)
      by (rewrite (ulp_exponent_normal x Big); lia).
    pose proof (power2_pos k) as Pk.
    assert (Einv : 2 ^ (- k) == / 2 ^ k) by apply Qpower_opp.
    remember (Qfloor x) as f eqn:Df.
    assert (Ey : x / 2 ^ (- k) == x * 2 ^ k).
    { unfold Qdiv. rewrite Einv. field. lra. }
    assert (Hf : inject_Z (f * 2 ^ k) <= x / 2 ^ (- k)).
    { rewrite Ey, inject_Z_mult, (power2_Z k Hk).
      apply Qmult_le_compat_r; [rewrite Df; apply Qfloor_le | lra]. }
    apply Qfloor_resp_le in Hf. rewrite Qfloor_Z in Hf.
    pose proof (rne_floor (x / 2 ^ (- k))) as [Hm _].
    assert (E1 : 2 ^ k * 2 ^ (- k) == 1).
    { rewrite <- Qpower_plus by discriminate.
      replace (k + - k)%Z with 0%Z by lia. reflexivity. }
    assert (Hd : inject_Z f <= double x).
    { rewrite (double_positive x Hx), Es.
      assert (Em : inject_Z f == inject_Z (f * 2 ^ k) * 2 ^ (- k)).
      { rewrite inject_Z_mult, (power2_Z k Hk), <- Qmult_assoc, E1. ring. }
      rewrite Em. apply Qmult_le_compat_r.
      - rewrite <- Zle_Qle. lia.
      - apply Qlt_le_weak, power2_pos. }
    assert (Hf0 : (0 <= f)%Z).
    { assert (K : (Qfloor 0 <= Qfloor x)%Z)
        by (apply Qfloor_resp_le; exact H0).
      rewrite Df. exact K. }
    assert (Hf0' : 0 <= inject_Z f)
      by (change 0 with (inject_Z 0); rewrite <- Zle_Qle; exact Hf0).
    pose proof (int_le_compat _ _ Hf0' Hd) as Hi.
    rewrite (int_nonneg _ Hf0'), Qfloor_Z in Hi. exact Hi.
Qed.

(** From 1 on the rounding error is at most [x / 2 ^ 53]. *)
Lemma double_error (x : Q) :
  1 <= x -> x - x / 2 ^ 53 <= double x <= x + x / 2 ^ 53.
Proof.
  intro Big. assert (Hx : 0 < x) by lra.
  destruct (binade_spec x Hx) as [Le _].
  rewrite (double_positive x Hx), (ulp_exponent_normal x Big).
  set (s := (binade x - 52)%Z).
  pose proof (power2_pos s) as Ps.
  pose proof (rne_near (x / 2 ^ s)) as [Lo Hi].
  assert (Eu : 2 ^ binade x == 2 ^ s * 2 ^ 52).
  { rewrite <- Qpower_plus by discriminate.
    replace (s + 52)%Z with (binade x) by (unfold s; lia). reflexivity. }
  assert (P52 : 0 < 2 ^ 52) by apply power2_pos.
  assert (Hu : 2 ^ s / 2 <= x / 2 ^ 53).
  { assert (E53 : 2 ^ 53 == 2 * 2 ^ 52) by (rewrite <- power2_succ; reflexivity).
    rewrite E53.
    assert (K : 2 ^ s * 2 ^ 52 <= x) by (rewrite <- Eu; exact Le).
    apply Qle_shift_div_l; [lra |].
    assert (E : 2 ^ s / 2 * (2 * 2 ^ 52) == 2 ^ s * 2 ^ 52) by field.
    rewrite E. exact K. }
  assert (Ex : x == x / 2 ^ s * 2 ^ s) by (field; lra).
  apply (Qmult_le_compat_r _ _ (2 ^ s)) in Lo; [| lra].
  apply (Qmult_le_compat_r _ _ (2 ^ s)) in Hi; [| lra].
  assert (E1 : (x / 2 ^ s - (1 # 2)) * 2 ^ s == x - 2 ^ s / 2) by (field; lra).
  assert (E2 : (x / 2 ^ s + (1 # 2)) * 2 ^ s == x + 2 ^ s / 2) by (field; lra).
  rewrite E1 in Lo. rewrite E2 in Hi. lra.
Qed.

Lemma small_quotients :
  forallb (fun k => (int (double (inject_Z (Z.of_nat k) / 100)) =? 0)%Z)
          (seq 0 100)
  = true.
Proof. vm_compute. reflexivity. Qed.

Lemma step_below_100 (mu : Z) :
  (0 <= mu < 100)%Z -> Z.max 1 (int (double (inject_Z mu / 100))) = 1%Z.
Proof.
  intro H. pose proof small_quotients as T.
  rewrite forallb_forall in T.
  specialize (T (Z.to_nat mu)).
  rewrite Z2Nat.id in T by lia.
  rewrite (proj1 (Z.eqb_eq _ _) (T ltac:(apply in_seq; lia))). reflexivity.
Qed.

Lemma quotient_by_100 (mu : Z) : inject_Z mu == inject_Z mu / 100 * 100.
Proof. field. Qed.

Lemma step_not_too_small (mu : Z) :
  (0 <= mu)%Z ->
  (mu < 200 * Z.max 1 (int (double (inject_Z mu / 100))))%Z.
Proof.
  intro Hm. set (x := inject_Z mu / 100).
  assert (Hx : 0 <= x).
  { unfold x. apply quotient_nonneg; [| reflexivity].
    change 0 with (inject_Z 0). rewrite <- Zle_Qle. exact Hm. }
  destruct (Qlt_le_dec x (2 ^ 53)) as [Small | Big].
  - pose proof (double_keeps_integer_part x Hx Small) as K.
    assert (E : Qfloor x = (mu / 100)%Z)
      by (unfold x; symmetry; apply (Zdiv_Qdiv mu 100)).
    rewrite E in K.
    pose proof (Z.mul_succ_div_gt mu 100 ltac:(lia)). lia.
  - change (2 ^ 53) with 9007199254740992 in Big.
    pose proof (double_error x ltac:(lra)) as [Lo _].
    change (2 ^ 53) with 9007199254740992 in Lo.
    assert (Ed : x / 9007199254740992 == x * (1 # 9007199254740992))
      by field.
    rewrite Ed in Lo.
    pose proof (int_floor_bounds (double x) (double_nonneg x Hx)) as [_ Up].
    assert (K : inject_Z mu < inject_Z (200 * int (double x))).
    { rewrite inject_Z_mult, (quotient_by_100 mu). fold x.
      change (inject_Z 200) with 200. clearbody x. lra. }
    rewrite <- Zlt_Qlt in K. lia.
Qed.

Lemma step_not_too_large (mu : Z) :
  (100 <= mu)%Z ->
  (99 * Z.max 1 (int (double (inject_Z mu / 100))) <= mu)%Z.
Proof.
  intro Hm. set (x := inject_Z mu / 100).
  assert (Hx : 1 <= x).
  { unfold x. apply Qle_shift_div_l; [reflexivity |].
    change (1 * 100) with (inject_Z 100). rewrite <- Zle_Qle. exact Hm. }
  pose proof (double_error x Hx) as [_ Hi].
  change (2 ^ 53) with 9007199254740992 in Hi.
  assert (Ed : x / 9007199254740992 == x * (1 # 9007199254740992))
    by field.
  rewrite Ed in Hi.
  pose proof (int_floor_bounds (double x) (double_nonneg x ltac:(lra)))
    as [Lo _].
  assert (K : inject_Z (99 * int (double x)) <= inject_Z mu).
  { rewrite inject_Z_mult, (quotient_by_100 mu). fold x.
    change (inject_Z 99) with 99. clearbody x. lra. }
  rewrite <- Zle_Qle in K. lia.
Qed.

(** X9.  The number of samples.  For every [max_units] from 0 up to the
    range of binary64, the units of the chart are strictly increasing,
    there is at least one of them and there are at most 200; below
    [max_units = 100] there is one unit for each integer from 0 to
    [max_units], and from 100 on there are at least 100. *)
Theorem sample_count_bounded (mu : Z) :
  (0 <= mu < 2 ^ 1024)%Z ->
  exists us,
    outcome (units_double mu) = Val us
    /\ StronglySorted Z.lt us
    /\ (1 <= List.length us <= 200)%nat
    /\ ((mu < 100)%Z -> us = map Z.of_nat (seq 0 (S (Z.to_nat mu))))
    /\ ((100 <= mu)%Z -> (100 <= List.length us)%nat).
Proof.
  intros [Hm _].
  set (step := Z.max 1 (int (double (inject_Z mu / 100)))).
  assert (Hs : (1 <= step)%Z) by (unfold step; lia).
  exists (multiples step mu). rewrite (units_double_run mu Hm). fold step.
  split; [reflexivity |].
  split; [apply multiples_increasing; exact Hs |].
  assert (El : List.length (multiples step mu) = S (Z.to_nat (mu / step)))
    by (unfold multiples; rewrite length_map, length_seq; reflexivity).
  rewrite El.
  assert (Hd : (0 <= mu / step)%Z) by (apply Z.div_pos; lia).
  assert (Hup : (mu / step < 200)%Z).
  { apply Z.div_lt_upper_bound; [lia |].
    pose proof (step_not_too_small mu Hm). fold step in H. lia. }
  split; [lia |]. split.
  - intro Hlt. unfold multiples.
    replace step with 1%Z by (unfold step; symmetry; apply step_below_100; lia).
    rewrite Z.div_1_r. apply map_ext. intro i. lia.
  - intro Hge.
    assert (Hlow : (99 <= mu / step)%Z).
    { apply Z.div_le_lower_bound; [lia |].
      pose proof (step_not_too_large mu Hge). fold step in H. lia. }
    lia.
Qed.

(** Scenario 6: [max_units = 600]. *)
Lemma sample_count_bounded_witness :
  exists us,
    outcome (units_double 600) = Val us
    /\ StronglySorted Z.lt us
    /\ (1 <= List.length us <= 200)%nat
    /\ ((600 < 100)%Z -> us = map Z.of_nat (seq 0 (S (Z.to_nat 600))))
    /\ ((100 <= 600)%Z -> (100 <= List.length us)%nat).
Proof.
  apply (sample_count_bounded 600). split; [discriminate | reflexivity].
Defined.





(** ** Which page is shown (lines 43, 56 and 113-116) *)

Lemma sum_member_le (col : list Q) (x : Q) :
  Forall (fun y => 0 <= y) col -> In x col -> x <= sum col.
Proof.
  induction 1 as [| y col Hy Hcol IH]; intros Hin; [destruct Hin |].
  rewrite sum_cons. pose proof (sum_nonnegative col Hcol) as Hs.
  destruct Hin as [-> | Hin]; [lra |].
  specialize (IH Hin). lra.
Qed.

Lemma sum_positive_member (col : list Q) :
  Forall (fun y => 0 <= y) col -> 0 < sum col -> exists x, In x col /\ 0 < x.
Proof.
  induction 1 as [| y col Hy Hcol IH]; intro Hs.
  - unfold sum in Hs. cbn [fold_left] in Hs. lra.
  - rewrite sum_cons in Hs.
    destruct (Qlt_le_dec 0 y) as [Hpos | Hneg].
    + exists y. split; [left; reflexivity | exact Hpos].
    + destruct IH as [x [Hin Hx]]; [lra |].
      exists x. split; [right; exact Hin | exact Hx].
Qed.

Lemma revenue_positive_iff (ps : list ProductRecord) :
  Forall (fun p => 0 <= Selling_Price p) ps ->
  (0 < total_revenue (snd (aggregate ps))
   <-> Exists (fun p => 0 < Quantity_Sold p /\ 0 < Selling_Price p) ps).
Proof.
  intro Hp.
  assert (Et : total_revenue (snd (aggregate ps))
               = sum (map (fun p => Selling_Price p * Quantity_Sold p)
                          (df_active ps))).
  { unfold aggregate, pool. cbn [snd total_revenue]. rewrite map_map.
    reflexivity. }
  assert (Hnn : Forall (fun y => 0 <= y)
                       (map (fun p => Selling_Price p * Quantity_Sold p)
                            (df_active ps))).
  { apply Forall_map, Forall_forall. intros p Hin.
    apply df_active_In in Hin. destruct Hin as [Hin Hq].
    rewrite Forall_forall in Hp. specialize (Hp p Hin). cbv beta in Hp.
    apply Qmult_le_0_compat; lra. }
  rewrite Et. split.
  - intro Hs. destruct (sum_positive_member _ Hnn Hs) as [x [Hin Hx]].
    apply in_map_iff in Hin. destruct Hin as [p [<- Hin]].
    apply df_active_In in Hin. destruct Hin as [Hin Hq].
    apply Exists_exists. exists p. split; [exact Hin |]. split; [exact Hq |].
    rewrite Forall_forall in Hp. specialize (Hp p Hin). cbv beta in Hp.
    destruct (Qlt_le_dec 0 (Selling_Price p)) as [L | L]; [exact L |].
    assert (E : Selling_Price p == 0) by lra. rewrite E in Hx. lra.
  - intro He. apply Exists_exists in He. destruct He as [p [Hin [Hq Hs]]].
    apply Qlt_le_trans with (Selling_Price p * Quantity_Sold p).
    + apply Qmult_lt_0_compat; assumption.
    + apply sum_member_le; [exact Hnn |].
      apply in_map_iff. exists p. split; [reflexivity |].
      apply df_active_In. split; assumption.
Qed.

(** X16.  When the report is shown.  With non-negative selling prices the
    page shows the metrics and the chart exactly when some product has
    both a positive quantity and a positive price; it shows the
    informational message exactly when no product has a positive
    quantity, and the warning in the remaining case. *)
Theorem report_iff_sellable (fixed_cost : Q) (ps : list ProductRecord) :
  Forall (fun p => 0 <= Selling_Price p) ps ->
  ((exists s t m c, outcome (page fixed_cost ps) = Val (Report s t m c))
   <-> Exists (fun p => 0 < Quantity_Sold p /\ 0 < Selling_Price p) ps)
  /\ (outcome (page fixed_cost ps) = Val Info
      <-> Forall (fun p => Quantity_Sold p <= 0) ps)
  /\ ((exists s, outcome (page fixed_cost ps) = Val (Warning s))
      <-> Exists (fun p => 0 < Quantity_Sold p) ps
          /\ ~ Exists (fun p => 0 < Quantity_Sold p /\ 0 < Selling_Price p) ps).
Proof.
  intro Hp. rewrite <- (revenue_positive_iff ps Hp).
  assert (Hempty : df_active ps = []
                   <-> Forall (fun p => Quantity_Sold p <= 0) ps).
  { split; [| apply df_active_none].
    intro E. apply Forall_forall. intros p Hin.
    destruct (Qlt_le_dec 0 (Quantity_Sold p)) as [L | L]; [| exact L].
    assert (K : In p (df_active ps)) by (apply df_active_In; tauto).
    rewrite E in K. destruct K. }
  assert (Hsome : df_active ps <> []
                  <-> Exists (fun p => 0 < Quantity_Sold p) ps).
  { rewrite Exists_exists. split.
    - intro H. destruct (df_active ps) as [| p l] eqn:E; [congruence |].
      assert (K : In p (df_active ps)) by (rewrite E; left; reflexivity).
      apply df_active_In in K. exists p. exact K.
    - intros [p [Hin Hq]] E.
      assert (K : In p (df_active ps)) by (apply df_active_In; tauto).
      rewrite E in K. destruct K. }
  rewrite <- Hempty, <- Hsome.
  destruct (df_active ps) as [| a rest] eqn:Ea.
  - rewrite (page_info fixed_cost ps Ea). cbn [outcome snd].
    split; [| split].
    + split; [intros [s [t [m [c H]]]]; discriminate |].
      intro Hr. exfalso.
      assert (Z0 : total_revenue (snd (aggregate ps)) = 0)
        by (unfold aggregate; rewrite Ea; reflexivity).
      rewrite Z0 in Hr. lra.
    + tauto.
    + split; [intros [s H]; discriminate | intros [H _]; congruence].
  - assert (Ha : df_active ps <> []) by (rewrite Ea; discriminate).
    destruct (Qlt_le_dec 0 (total_revenue (snd (aggregate ps)))) as [Hr | Hr].
    + destruct (page_report fixed_cost ps Ha Hr) as [top ->]. cbn [outcome snd].
      split; [| split].
      * split; [intros _; exact Hr | intros _; do 4 eexists; reflexivity].
      * split; [discriminate | intro H; discriminate].
      * split; [intros [s H]; discriminate | intros [_ H]; contradiction].
    + rewrite (page_warning fixed_cost ps Ha) by lra. cbn [outcome snd].
      split; [| split].
      * split; [intros [s [t [m [c H]]]]; discriminate | intro H; lra].
      * split; [discriminate | intro H; discriminate].
      * split; [intros _; split; [discriminate | lra]
               | intros _; eexists; reflexivity].
Qed.

Lemma report_iff_sellable_witness :
  ((exists s t m c,
      outcome (page 5000 [free_row; default_row]) = Val (Report s t m c))
   <-> Exists (fun p => 0 < Quantity_Sold p /\ 0 < Selling_Price p)
              [free_row; default_row])
  /\ (outcome (page 5000 [free_row; default_row]) = Val Info
      <-> Forall (fun p => Quantity_Sold p <= 0) [free_row; default_row])
  /\ ((exists s, outcome (page 5000 [free_row; default_row]) = Val (Warning s))
      <-> Exists (fun p => 0 < Quantity_Sold p) [free_row; default_row]
          /\ ~ Exists (fun p => 0 < Quantity_Sold p /\ 0 < Selling_Price p)
                      [free_row; default_row]).
Proof.
  apply (report_iff_sellable 5000 [free_row; default_row]).
  repeat constructor; discriminate.
Defined.

(** ** The input form (lines 20-37) *)

Lemma to_int_proper (i : Z) :
  Z.to_int i <> Decimal.Pos Decimal.Nil /\ Z.to_int i <> Decimal.Neg Decimal.Nil.
Proof.
  destruct i as [| p | p]; cbn [Z.to_int]; split; try discriminate;
    intro H; injection H as H; exact (DecimalPos.Unsigned.to_uint_nonnil p H).
Qed.

Lemma str_inj (i j : Z) : str i = str j -> i = j.
Proof.
  unfold str. intro H.
  apply (f_equal DecimalString.NilZero.int_of_string) in H.
  destruct (to_int_proper i) as [Hi1 Hi2].
  destruct (to_int_proper j) as [Hj1 Hj2].
  rewrite !DecimalString.NilZero.isi in H by assumption.
  injection H as H. apply DecimalZ.to_int_inj. exact H.
Qed.

(** The indices of the loop: [range(1, n + 1)]. *)
Lemma loop_indices (n : Z) :
  range 1 (n + 1) 1
  = ([], Val (map (fun k => (Z.of_nat k + 1)%Z) (seq 0 (Z.to_nat n)))).
Proof.
  unfold range, range_len, ret. cbn [Z.eqb Z.ltb Z.compare].
  destruct (1 <? n + 1)%Z eqn:E.
  - apply Z.ltb_lt in E. rewrite Z.div_1_r.
    replace (Z.to_nat (1 + (n + 1 - 1 - 1))) with (Z.to_nat n) by lia.
    do 2 f_equal. apply map_ext. intro k. lia.
  - apply Z.ltb_ge in E. replace (Z.to_nat n) with 0%nat by lia.
    reflexivity.
Qed.

Lemma keys_of_one_product (i j : Z) (k : string) :
  In k [sp_key i; vc_key i; q_key i] ->
  In k [sp_key j; vc_key j; q_key j] -> i = j.
Proof.
  unfold sp_key, vc_key, q_key. cbn [In String.append].
  intros [<- | [<- | [<- | []]]] [H | [H | [H | []]]];
    try discriminate; injection H as H; apply str_inj; symmetry; exact H.
Qed.

Lemma keys_of_one_product_NoDup (i : Z) : NoDup [sp_key i; vc_key i; q_key i].
Proof.
  unfold sp_key, vc_key, q_key. cbn [String.append].
  repeat constructor; cbn [In]; intuition discriminate.
Qed.

Lemma flat_map_NoDup {A B} (f : A -> list B) (l : list A) :
  NoDup l ->
  (forall a, In a l -> NoDup (f a)) ->
  (forall a a' b, In a l -> In a' l -> In b (f a) -> In b (f a') -> a = a') ->
  NoDup (flat_map f l).
Proof.
  induction 1 as [| a l Hnot Hnd IH]; intros Hf Hdis; cbn [flat_map].
  - constructor.
  - apply NoDup_app.
    + apply Hf. left. reflexivity.
    + apply IH.
      * intros a' Ha'. apply Hf. right. exact Ha'.
      * intros a1 a2 b H1 H2. apply Hdis; right; assumption.
    + intros b Hb Hin. apply in_flat_map in Hin.
      destruct Hin as [a' [Ha' Hb']].
      assert (a = a') by (apply (Hdis a a' b); [left; reflexivity | right; exact Ha' | exact Hb | exact Hb']).
      subst a'. contradiction.
Qed.

Lemma loop_indices_NoDup (n : nat) :
  NoDup (map (fun k => (Z.of_nat k + 1)%Z) (seq 0 n)).
Proof.
  apply Finite.Injective_map_NoDup; [| apply seq_NoDup].
  intros a b H. lia.
Qed.

(** X17.  Every input has its own key.  For any number of products, the
    keys [sp_i], [vc_i] and [q_i] that the loop gives to its number inputs
    are pairwise distinct, three for each product. *)
Theorem widget_keys_distinct (num_products : Z) :
  exists keys,
    widget_keys num_products = ([], Val keys)
    /\ NoDup keys
    /\ List.length keys = (3 * Z.to_nat num_products)%nat.
Proof.
  unfold widget_keys. rewrite loop_indices, bind_val.
  eexists. split; [reflexivity |]. split.
  - apply flat_map_NoDup.
    + apply loop_indices_NoDup.
    + intros i _. apply keys_of_one_product_NoDup.
    + intros i j k _ _. apply keys_of_one_product.
  - assert (E : forall l : list Z,
               List.length (flat_map (fun i => [sp_key i; vc_key i; q_key i]) l)
               = (3 * List.length l)%nat).
    { induction l as [| i l IH]; [reflexivity |].
      cbn [flat_map app List.length]. rewrite IH. lia. }
    cbn [snd]. rewrite E, length_map, length_seq. reflexivity.
Qed.

(** X18.  The product table.  The loop yields one row for each index from
    1 to [num_products], in order, reading the three inputs of that
    index; the rows carry pairwise distinct names, and from
    [num_products = 1] on the table is not empty. *)
Theorem products_rows (form : Form) (num_products : Z) :
  exists rows,
    products form num_products = ([], Val rows)
    /\ List.length rows = Z.to_nat num_products
    /\ (forall k, (k < Z.to_nat num_products)%nat ->
          nth_error rows k = Some (product_inputs form (Z.of_nat k + 1)))
    /\ NoDup (map Product rows)
    /\ ((1 <= num_products)%Z -> rows <> []).
Proof.
  unfold products. rewrite loop_indices, bind_val.
  eexists. split; [reflexivity |].
  split; [rewrite !length_map, length_seq; reflexivity |].
  split; [| split].
  - intros k Hk. rewrite !nth_error_map.
    rewrite (nth_error_nth' _ 0%nat) by (rewrite length_seq; exact Hk).
    rewrite seq_nth by exact Hk. reflexivity.
  - rewrite map_map. cbn [product_inputs Product].
    apply Finite.Injective_map_NoDup; [| apply loop_indices_NoDup].
    intros i j H. cbn [String.append] in H. injection H as H.
    apply str_inj. exact H.
  - intro Hn. destruct (Z.to_nat num_products) as [| n] eqn:E; [lia |].
    discriminate.
Qed.
